(** * MutateX position-list helpers: a shallow embedding

    The development follows the three command-line scripts of
    [KJA_scripts]:

    - [generate_mutatex_position_list_from_mutinfo.py] (module [Mutinfo]):
      [_extract_position], [_position_identifier], [generate_position_list]
      and [main];
    - [ddg2heatmap_wrapper.py] (module [Heatmap]): [_filter_positions] and
      [main];
    - [generate_mutatex_position_list.py] (module [Spans]):
      [parse_residue_spans] and [generate_position_list].

    The argument parsers, the structure parser and the external heat-map
    tool are not part of it: their results are arguments of the model.

    Module [Py] holds the string operations of the interpreter the scripts
    call, module [Spec] the vocabulary of the specification; the properties
    follow the definitions.

    Text.  A Python [str] is modelled by [string]; a character is a code
    point below 256, so that [ord] is [N_of_ascii].  On that range the
    character classes of the interpreter are: [str.isspace] holds of
    U+0009..U+000D, U+001C..U+0020, U+0085 and U+00A0; the regex class
    [\d] holds of "0".."9" only; [[A-Z]] holds of "A".."Z".

    Integers.  [int(...)] is unbounded, hence [Z].  [Py.int] reads a run
    of digits; [Spans.int] is [int] on any text, with the white space, the
    sign, the underscores and the default limit of 4300 digits of the
    interpreter, which [Py.int] leaves out.

    Sets.  The accumulation set of [generate_position_list] is a [gset].
    The order in which CPython enumerates a set of tuples of strings is a
    function of the per-process salted string hash: it is not fixed by the
    program text.  The enumeration is therefore a parameter [iter] of the
    model, constrained by [set_iteration] to list every member once. *)

From Stdlib Require Import ZArith NArith Ascii String List.
From stdpp Require Import base decidable option list sorting gmap strings
  pretty.

(** ** Python string primitives *)

Module Py.

Definition ord (c : ascii) : N := N_of_ascii c.

(** [str.isspace] on a single character. *)
Definition isspace (c : ascii) : bool :=
  let n := ord c in
  ((9 <=? n) && (n <=? 13) || (28 <=? n) && (n <=? 32)
   || (n =? 133) || (n =? 160))%N.

(** The regex class [\d]. *)
Definition isdigit (c : ascii) : bool :=
  let n := ord c in ((48 <=? n) && (n <=? 57))%N.

(** The regex class [[A-Z]]. *)
Definition isupper (c : ascii) : bool :=
  let n := ord c in ((65 <=? n) && (n <=? 90))%N.

Fixpoint lstrip (s : string) : string :=
  match s with
  | String c s' => if isspace c then lstrip s' else s
  | EmptyString => EmptyString
  end.

Fixpoint rstrip (s : string) : string :=
  match s with
  | String c s' =>
      match rstrip s' with
      | EmptyString => if isspace c then EmptyString else String c EmptyString
      | r => String c r
      end
  | EmptyString => EmptyString
  end.

(** [s.strip()] *)
Definition strip (s : string) : string := rstrip (lstrip s).

(** [s.startswith(c)] for a one-character prefix. *)
Definition startswith (c : ascii) (s : string) : bool :=
  match s with
  | String c' _ => bool_decide (c' = c)
  | EmptyString => false
  end.

(** [s.split(sep)] for a one-character separator: never the empty list. *)
Fixpoint split (sep : ascii) (s : string) : list string :=
  match s with
  | EmptyString => [EmptyString]
  | String c s' =>
      if bool_decide (c = sep) then EmptyString :: split sep s'
      else match split sep s' with
           | part :: parts => String c part :: parts
           | [] => [String c EmptyString]
           end
  end.

(** [s.split(sep, 1)]: at most one cut, at the first separator. *)
Fixpoint split_1 (sep : ascii) (s : string) : list string :=
  match s with
  | EmptyString => [EmptyString]
  | String c s' =>
      if bool_decide (c = sep) then [EmptyString; s']
      else match split_1 sep s' with
           | part :: parts => String c part :: parts
           | [] => [String c EmptyString]
           end
  end.

(** [sep.join(parts)] *)
Fixpoint join (sep : string) (parts : list string) : string :=
  match parts with
  | [] => EmptyString
  | [p] => p
  | p :: ps => p +:+ sep +:+ join sep ps
  end.

(** [re.fullmatch(r"[A-Z]", s) is not None] *)
Definition fullmatch_upper (s : string) : bool :=
  match s with
  | String c EmptyString => isupper c
  | _ => false
  end.

(** The greedy run [\d*] at the head of [s], and what follows it. *)
Fixpoint span_digits (s : string) : string * string :=
  match s with
  | String c s' =>
      if isdigit c
      then let '(ds, rest) := span_digits s' in (String c ds, rest)
      else (EmptyString, s)
  | EmptyString => (EmptyString, EmptyString)
  end.

(** [re.fullmatch(r"(\d+)([A-Z]?)", s)]: [None], or the two groups.  The
    two classes are disjoint, so the greedy run of digits is the only way
    to match. *)
Definition fullmatch_resnum (s : string) : option (string * string) :=
  let '(ds, rest) := span_digits s in
  match ds with
  | EmptyString => None
  | _ =>
      match rest with
      | EmptyString => Some (ds, EmptyString)
      | String c EmptyString => if isupper c then Some (ds, rest) else None
      | _ => None
      end
  end.

Definition digit_value (c : ascii) : Z := Z.of_N (ord c) - 48.

Fixpoint int_from (acc : Z) (ds : string) : Z :=
  match ds with
  | String c ds' => int_from (10 * acc + digit_value c) ds'
  | EmptyString => acc
  end.

(** [int(ds)] for a string of decimal digits. *)
Definition int (ds : string) : Z := int_from 0 ds.

(** In a list of segments cut at line ends, the last one is what follows
    the last line end: it is a line only when it is not empty. *)
Fixpoint drop_empty_tail (segments : list string) : list string :=
  match segments with
  | [] => []
  | [EmptyString] => []
  | seg :: segments' => seg :: drop_empty_tail segments'
  end.

(** Segments of a text read with universal newlines: each of LF, CR and
    CR LF ends a line and is handed over as LF. *)
Fixpoint file_segments (s : string) : list string :=
  match s with
  | EmptyString => [EmptyString]
  | String c s' =>
      let rest :=
        if bool_decide (c = "013"%char)
        then match s' with
             | String c' s'' =>
                 if bool_decide (c' = "010"%char) then file_segments s''
                 else file_segments s'
             | EmptyString => file_segments s'
             end
        else file_segments s' in
      if bool_decide (c = "010"%char) || bool_decide (c = "013"%char)
      then String "010" EmptyString :: rest
      else match rest with
           | seg :: segments => String c seg :: segments
           | [] => [String c EmptyString]
           end
  end.

(** The lines [for raw_line in fh] yields for a file holding [text]. *)
Definition file_lines (text : string) : list string :=
  drop_empty_tail (file_segments text).

(** The line boundaries of [str.splitlines]; CR LF counts as one. *)
Definition islinebreak (c : ascii) : bool :=
  let n := ord c in
  ((10 <=? n) && (n <=? 13) || (28 <=? n) && (n <=? 30) || (n =? 133))%N.

Fixpoint splitlines_segments (s : string) : list string :=
  match s with
  | EmptyString => [EmptyString]
  | String c s' =>
      let rest :=
        if bool_decide (c = "013"%char)
        then match s' with
             | String c' s'' =>
                 if bool_decide (c' = "010"%char) then splitlines_segments s''
                 else splitlines_segments s'
             | EmptyString => splitlines_segments s'
             end
        else splitlines_segments s' in
      if islinebreak c then EmptyString :: rest
      else match rest with
           | seg :: segments => String c seg :: segments
           | [] => [String c EmptyString]
           end
  end.

(** [s.splitlines()] *)
Definition splitlines (s : string) : list string :=
  drop_empty_tail (splitlines_segments s).

End Py.

(** [sorted(l, key=key)]: the sort is stable and only ever asks whether one
    key is strictly below another.  A stable sort has one possible result,
    so straight insertion stands for the interpreter's merge sort. *)
Section Sorted.
Context {A K : Type} (lt : K → K → bool) (key : A → K).

Fixpoint insert_sorted (x : A) (l : list A) : list A :=
  match l with
  | [] => [x]
  | y :: l' => if lt (key y) (key x) then y :: insert_sorted x l' else x :: l
  end.

Fixpoint sorted (l : list A) : list A :=
  match l with
  | [] => []
  | x :: l' => insert_sorted x (sorted l')
  end.

End Sorted.

(** ** generate_mutatex_position_list_from_mutinfo.py *)

Module Mutinfo.

(** The tuple [(wt_aa, chain, resnum_str, resnum_int)] returned by
    [_extract_position] and stored in the set [positions]. *)
Abbreviation Position := (string * string * string * Z)%type.

Definition wt_aa_of (t : Position) : string := t.1.1.1.      (* t[0] *)
Definition chain_of (t : Position) : string := t.1.1.2.      (* t[1] *)
Definition resnum_str_of (t : Position) : string := t.1.2.   (* t[2] *)
Definition resnum_int_of (t : Position) : Z := t.2.          (* t[3] *)

Definition _extract_position (token : string) : option Position :=
  let parts := Py.split "." token in
  if (length parts <? 3)%nat then None
  else
    match parts with
    | chain :: wt_aa :: resnum_str :: _ =>
        if negb (Py.fullmatch_upper wt_aa) then None
        else
          match Py.fullmatch_resnum resnum_str with
          | None => None
          | Some (group1, _) => Some (wt_aa, chain, resnum_str, Py.int group1)
          end
    | _ => None
    end.

Definition _position_identifier (wt_aa chain resnum_str : string) : string :=
  wt_aa +:+ chain +:+ resnum_str.

(** What the script prints on standard output.  The texts are
    [[WARN] Skipping unrecognised line: {line}] and
    [(check mark)  Wrote {n} position(s) to {output_path}]. *)
Inductive message : Type :=
  | Warn_skipping (line : string)
  | Wrote (n : nat) (output_path : string).

(** The variables the reading loop updates. *)
Record loop_state : Type := LoopState {
  positions : gset Position;
  printed : list message
}.

Definition loop_start : loop_state :=
  {| positions := ∅; printed := [] |}.

(** [line.split(",", 1)[0]] *)
Definition first_field (line : string) : string :=
  match Py.split_1 "," line with
  | field :: _ => field
  | [] => EmptyString
  end.

(** One turn of [for raw_line in fh]. *)
Definition loop_body (st : loop_state) (raw_line : string) : loop_state :=
  let line := Py.strip raw_line in
  if bool_decide (line = EmptyString) || Py.startswith "#" line then st
  else
    match _extract_position (first_field line) with
    | None =>
        {| positions := positions st;
           printed := (printed st ++ [Warn_skipping line])%list |}
    | Some parsed =>
        {| positions := {[ parsed ]} ∪ positions st;
           printed := printed st |}
    end.

Definition read_loop (fh : list string) : loop_state :=
  foldl loop_body loop_start fh.

(** The key [lambda t: (t[1], t[3])]. *)
Definition sort_key (t : Position) : string * Z :=
  (chain_of t, resnum_int_of t).

(** [k1 < k2] on such pairs: the first components decide unless they are
    equal; strings compare code point by code point. *)
Definition key_lt (k1 k2 : string * Z) : bool :=
  if bool_decide (k1.1 = k2.1) then (k1.2 <? k2.2)%Z
  else String.ltb k1.1 k2.1.

(** An enumeration of sets, as [for ... in positions] performs it. *)
Definition set_iteration (iter : gset Position → list Position) : Prop :=
  ∀ s, iter s ≡ₚ elements s.

(** [generate_position_list], on the lines [fh] the open file yields.  The
    result is the returned list together with what was printed. *)
Definition generate_position_list
    (iter : gset Position → list Position) (fh : list string)
    : list string * list message :=
  let st := read_loop fh in
  let sorted_positions := sorted key_lt sort_key (iter (positions st)) in
  (map (λ t, _position_identifier (wt_aa_of t) (chain_of t) (resnum_str_of t))
       sorted_positions,
   printed st).

(** The command line after [_parse_args]. *)
Record Namespace : Type := { mutinfo : string; output : string }.

(** How [main] ends: [raise SystemExit(...)], whose text names the path of
    the missing file, or a normal return. *)
Inductive outcome : Type :=
  | SystemExit_not_found (mutinfo_path : string)
  | Returned.

(** [main], on a file system that maps the resolved path of each regular
    file to its text.  The two paths of [args] are taken as
    [expanduser().resolve()] leaves them, and opening the output for writing
    is taken to succeed.  The result is how the run ended, the file system
    it leaves, and what it printed on standard output. *)
Definition main (iter : gset Position → list Position) (args : Namespace)
    (fs : gmap string string) : outcome * gmap string string * list message :=
  let mutinfo_path := mutinfo args in
  match fs !! mutinfo_path with
  | None => (SystemExit_not_found mutinfo_path, fs, [])
  | Some text =>
      let '(position_list, out) :=
        generate_position_list iter (Py.file_lines text) in
      let output_path := output args in
      (Returned,
       <[ output_path := Py.join (String "010" "") position_list
                         +:+ String "010" "" ]> fs,
       (out ++ [Wrote (length position_list) output_path])%list)
  end.

End Mutinfo.

(** ** ddg2heatmap_wrapper.py *)

Module Heatmap.

(** What [_filter_positions] writes on standard error.  The texts are
    [[INFO] Excluding {n} residue(s) with missing energy files:], one
    bullet line per missing position, and
    [[INFO] All positions have energy files - no filtering needed.]. *)
Inductive info : Type :=
  | Excluding (n : nat)
  | Bullet (pos : string)
  | All_present.

(** The two lists the classification loop appends to. *)
Record loop_lists : Type := LoopLists {
  available : list string;
  missing : list string
}.

Section FilterPositions.

(** [is_file data_dir pos] stands for [(data_dir / pos).is_file()]: path
    joining and the directory lookup belong to [pathlib]. *)
Variable is_file : string → string → bool.

(** [[line.strip() for line in text.splitlines() if line.strip()]] *)
Definition stripped_lines (text : string) : list string :=
  map Py.strip
      (filter (λ line, Py.strip line ≠ EmptyString) (Py.splitlines text)).

(** One turn of [for pos in positions]. *)
Definition classify (data_dir : string) (st : loop_lists) (pos : string)
    : loop_lists :=
  if is_file data_dir pos
  then {| available := available st ++ [pos]; missing := missing st |}
  else {| available := available st; missing := missing st ++ [pos] |}.

(** One turn of [for pos in available: tmp_handle.write(pos + LF)]. *)
Definition write_line (written : string) (pos : string) : string :=
  written +:+ pos +:+ String "010" EmptyString.

(** [_filter_positions], on the text of the position file.  In place of the
    path of the temporary file the model returns the text written to it,
    then the number of removed entries and the standard-error output. *)
Definition _filter_positions (text : string) (data_dir : string)
    : string * nat * list info :=
  let positions := stripped_lines text in
  let st := foldl (classify data_dir) {| available := []; missing := [] |}
                  positions in
  let stderr :=
    match missing st with
    | [] => [All_present]
    | _ => Excluding (length (missing st)) :: map Bullet (missing st)
    end in
  let tmp_text := foldl write_line EmptyString (available st) in
  (tmp_text, length (missing st), stderr).

End FilterPositions.

(** The command line after [_parse_args]: the recognised options; the
    arguments it does not recognise are passed separately as [extra]. *)
Record Namespace : Type := {
  pdb : string;
  data_directory : string;
  mutation_list : string;
  position_list : string;
  output : string;
  keep_temp : bool
}.

(** The file system [main] works on: the text of each regular file and the
    set of directories, by resolved path. *)
Record file_system : Type := FileSystem {
  files : gmap string string;
  dirs : gset string
}.

(** How [main] ends: one of the two [sys.exit(...)] calls, whose text names
    the path; an exception out of [subprocess.run] (the tool ended with a
    non-zero status or could not be started); or a normal return. *)
Inductive outcome : Type :=
  | Exit_file_not_found (path : string)
  | Exit_data_directory_not_found (path : string)
  | Subprocess_raised
  | Returned.

(** What [main] writes on standard error: the report of
    [_filter_positions], then [[INFO] Running: ] with the command joined by
    spaces, [[INFO] ddg2heatmap completed.] and
    [[INFO] Filtered out {n_removed} missing position(s).]. *)
Inductive log : Type :=
  | Report (line : info)
  | Running (ddg_cmd : list string)
  | Completed
  | Filtered_out (n_removed : nat).

Section Main.

(** [joinpath data_dir pos] stands for the path [data_dir / pos]. *)
Variable joinpath : string → string → string.

(** [subprocess_run cmd fs] stands for [subprocess.run(cmd, check=True)]
    started on [fs]: whether it returned, and the file system the external
    tool leaves. *)
Variable subprocess_run : list string → file_system → bool * file_system.

(** [(data_dir / pos).is_file()] on [fs]. *)
Definition energy_file_exists (fs : file_system) (data_dir pos : string)
    : bool :=
  bool_decide (is_Some (files fs !! joinpath data_dir pos)).

(** The list [ddg_cmd]. *)
Definition ddg_cmd (args : Namespace) (filtered_pos_path : string)
    (extra : list string) : list string :=
  ["ddg2heatmap"; "-p"; pdb args; "-d"; data_directory args;
   "-l"; mutation_list args; "-q"; filtered_pos_path; "-o"; output args]
  ++ extra.

(** The [finally] clause: [os.unlink(filtered_pos_path)] unless
    [--keep-temp] was given; an [OSError] is passed over. *)
Definition cleanup (args : Namespace) (filtered_pos_path : string)
    (fs : file_system) : file_system :=
  if keep_temp args then fs
  else {| files := delete filtered_pos_path (files fs); dirs := dirs fs |}.

(** [main].  The paths of [args] are taken as [expanduser().resolve()]
    leaves them; [filtered_pos_path] is the name [NamedTemporaryFile]
    picks for the filtered list.  The loop over the three input paths is
    written out.  The result is how the run ended, the file system it
    leaves, and what it wrote on standard error. *)
Definition main (args : Namespace) (extra : list string)
    (filtered_pos_path : string) (fs : file_system)
    : outcome * file_system * list log :=
  let pdb_path := pdb args in
  let data_dir := data_directory args in
  let mutlist_path := mutation_list args in
  let poslist_path := position_list args in
  match files fs !! pdb_path with
  | None => (Exit_file_not_found pdb_path, fs, [])
  | Some _ =>
  match files fs !! mutlist_path with
  | None => (Exit_file_not_found mutlist_path, fs, [])
  | Some _ =>
  match files fs !! poslist_path with
  | None => (Exit_file_not_found poslist_path, fs, [])
  | Some text =>
      if negb (bool_decide (data_dir ∈ dirs fs))
      then (Exit_data_directory_not_found data_dir, fs, [])
      else
        let '(tmp_text, n_removed, report) :=
          _filter_positions (energy_file_exists fs) text data_dir in
        let fs_tmp :=
          {| files := <[ filtered_pos_path := tmp_text ]> (files fs);
             dirs := dirs fs |} in
        let cmd := ddg_cmd args filtered_pos_path extra in
        let stderr := (Report <$> report) ++ [Running cmd] in
        let '(returned, fs_tool) := subprocess_run cmd fs_tmp in
        let fs_end := cleanup args filtered_pos_path fs_tool in
        if returned
        then (Returned, fs_end,
              stderr ++ [Completed]
              ++ (if (n_removed =? 0)%nat then []
                  else [Filtered_out n_removed]))
        else (Subprocess_raised, fs_end, stderr)
  end end end.

End Main.

End Heatmap.

(** ** The wording of the specification *)

Module Spec.

(** The characters of a text, in order. *)
Definition chars (s : string) : list ascii := list_ascii_of_string s.

(** Exactly one uppercase letter A-Z. *)
Definition uppercase_letter (s : string) : Prop :=
  ∃ c, s = String c EmptyString ∧ (65 ≤ Py.ord c ≤ 90)%N.

(** Only decimal digits. *)
Definition digits (s : string) : Prop :=
  Forall (λ c, (48 ≤ Py.ord c ≤ 57)%N) (chars s).

(** One or more digits followed by at most one uppercase letter. *)
Definition residue_number (s : string) : Prop :=
  ∃ ds suffix,
    s = ds +:+ suffix ∧ ds ≠ EmptyString ∧ digits ds
    ∧ (suffix = EmptyString ∨ uppercase_letter suffix).

(** [parts] are the dot-separated parts of [token]. *)
Definition dot_parts (token : string) (parts : list string) : Prop :=
  parts ≠ [] ∧ Forall (λ part, "."%char ∉ chars part) parts
  ∧ token = Py.join "." parts.

(** Fewer than three parts, or a second part that is not one uppercase
    letter, or a third part that is not a residue number. *)
Definition invalid_token (token : string) : Prop :=
  ∃ parts, dot_parts token parts
    ∧ ((length parts < 3)%nat
       ∨ (∃ wt, parts !! 1%nat = Some wt ∧ ¬ uppercase_letter wt)
       ∨ (∃ resnum, parts !! 2%nat = Some resnum ∧ ¬ residue_number resnum)).

(** A line the reading loop looks at: not blank, not a comment. *)
Definition candidate (raw_line : string) : Prop :=
  Py.strip raw_line ≠ EmptyString
  ∧ Py.startswith "#" (Py.strip raw_line) = false.

(** The record a raw line stands for, if it is a candidate with a valid
    token. *)
Definition record_of (raw_line : string) : option Mutinfo.Position :=
  let line := Py.strip raw_line in
  if bool_decide (line = EmptyString) || Py.startswith "#" line then None
  else Mutinfo._extract_position (Mutinfo.first_field line).

(** A text without line boundaries. *)
Definition single_line (s : string) : Prop :=
  Forall (λ c, Py.islinebreak c = false) (chars s).

(** The text of a file with one entry per line, each ended by a newline. *)
Fixpoint lines_text (entries : list string) : string :=
  match entries with
  | [] => EmptyString
  | entry :: entries' => entry +:+ String "010" (lines_text entries')
  end.

(** The order of the output: chains in lexicographic order, and within a
    chain the integer values of the residue numbers in ascending order. *)
Definition chain_then_number (p q : Mutinfo.Position) : Prop :=
  (Mutinfo.chain_of p ≤ Mutinfo.chain_of q)%string
  ∧ (Mutinfo.chain_of p = Mutinfo.chain_of q →
     (Mutinfo.resnum_int_of p ≤ Mutinfo.resnum_int_of q)%Z).

(** No two members of [s] share a sort key. *)
Definition distinct_sort_keys (s : gset Mutinfo.Position) : Prop :=
  ∀ p q, p ∈ s → q ∈ s → Mutinfo.sort_key p = Mutinfo.sort_key q → p = q.

(** The identifier of a tuple, as the last line of
    [generate_position_list] writes it. *)
Definition identifier_of (t : Mutinfo.Position) : string :=
  Mutinfo._position_identifier
    (Mutinfo.wt_aa_of t) (Mutinfo.chain_of t) (Mutinfo.resnum_str_of t).

(** A line the reading loop looks at and whose token the parser turns
    down. *)
Definition turned_down (raw_line : string) : Prop :=
  candidate raw_line
  ∧ Mutinfo._extract_position (Mutinfo.first_field (Py.strip raw_line))
    = None.

#[global] Instance turned_down_dec raw_line : Decision (turned_down raw_line).
Proof. unfold turned_down, candidate. apply _. Defined.

End Spec.

(** ** generate_mutatex_position_list.py *)

Module Spans.

(** White space that [int] passes over at either end of its argument:
    U+0009..U+000D, the space, U+0085 and U+00A0. *)
Definition int_space (c : ascii) : bool :=
  let n := Py.ord c in
  ((9 <=? n) && (n <=? 13) || (n =? 32) || (n =? 133) || (n =? 160))%N.

Fixpoint int_lstrip (s : string) : string :=
  match s with
  | String c s' => if int_space c then int_lstrip s' else s
  | EmptyString => EmptyString
  end.

Fixpoint int_rstrip (s : string) : string :=
  match s with
  | String c s' =>
      match int_rstrip s' with
      | EmptyString => if int_space c then EmptyString else String c EmptyString
      | r => String c r
      end
  | EmptyString => EmptyString
  end.

(** The digits of a decimal literal: one or more digits, with single
    underscores allowed between digits only.  [after_digit] tells whether
    the character before was a digit. *)
Fixpoint literal_digits (after_digit : bool) (s : string) : option string :=
  match s with
  | EmptyString => if after_digit then Some EmptyString else None
  | String c s' =>
      if Py.isdigit c then String c <$> literal_digits true s'
      else if bool_decide (c = "_"%char) && after_digit
           then literal_digits false s'
           else None
  end.

(** The default limit of the interpreter on the digits of a decimal
    literal. *)
Definition max_str_digits : nat := 4300.

(** [int(s)] for any text: [None] stands for [ValueError]. *)
Definition int (s : string) : option Z :=
  let body := int_rstrip (int_lstrip s) in
  let '(negative, magnitude) :=
    match body with
    | String c rest =>
        if bool_decide (c = "-"%char) then (true, rest)
        else if bool_decide (c = "+"%char) then (false, rest)
        else (false, body)
    | EmptyString => (false, EmptyString)
    end in
  match literal_digits false magnitude with
  | None => None
  | Some ds =>
      if (max_str_digits <? String.length ds)%nat then None
      else Some (if negative then - Py.int ds else Py.int ds)%Z
  end.

(** The body of the loop of [parse_residue_spans] for one span; both
    unpackings need exactly two values, and every failure is a
    [ValueError]. *)
Definition parse_span (span : string) : option (string * Z * Z) :=
  match Py.split ":" span with
  | [chain; rng] =>
      match Py.split "-" rng with
      | [first; last] =>
          match int first, int last with
          | Some start, Some end_ => Some (chain, start, end_)
          | _, _ => None
          end
      | _ => None
      end
  | _ => None
  end.

(** [parse_residue_spans]: [None] stands for the [ValueError] that ends
    the loop. *)
Definition parse_residue_spans (span_list : list string)
    : option (list (string * Z * Z)) :=
  foldl (λ residues span,
           match residues with
           | Some parsed =>
               match parse_span span with
               | Some triple => Some (parsed ++ [triple])
               | None => None
               end
           | None => None
           end)
        (Some []) span_list.

(** A residue of the structure: [res.id] is [(hetfield, resseq, icode)]. *)
Record residue : Type := {
  hetfield : string;
  resseq : Z;
  icode : string;
  resname : string
}.

(** A model of the structure: the residues of each chain, in file order,
    by chain identifier. *)
Abbreviation model := (gmap string (list residue)).

(** What [generate_position_list] prints.  The texts are
    [Warning: Chain {chain_id} not found in structure.],
    [Skipping unknown residue {res.resname} at {chain_id}{resseq}] and
    [Generated position list: {output_file} with {n} entries.]. *)
Inductive message : Type :=
  | Chain_not_found (chain_id : string)
  | Skipping_unknown (resname chain_id : string) (resseq : Z)
  | Generated (output_file : string) (n : nat).

(** The variables the loops update. *)
Record loop_state : Type := LoopState {
  pos_entries : list string;
  printed : list message
}.

Section GeneratePositionList.

(** [str.capitalize] and the table [protein_letters_3to1] of Biopython. *)
Variable capitalize : string → string.
Variable protein_letters_3to1 : gmap string string.

(** One turn of [for res in chain.get_residues()]. *)
Definition residue_body (chain_id : string) (start end_ : Z)
    (st : loop_state) (res : residue) : loop_state :=
  if negb (bool_decide (hetfield res = " ")) then st
  else if ((start <=? resseq res) && (resseq res <=? end_))%Z then
    match protein_letters_3to1 !! capitalize (resname res) with
    | None =>
        {| pos_entries := pos_entries st;
           printed := printed st
                      ++ [Skipping_unknown (resname res) chain_id (resseq res)] |}
    | Some one_letter =>
        {| pos_entries := pos_entries st
                          ++ [one_letter +:+ chain_id +:+ pretty (resseq res)];
           printed := printed st |}
    end
  else st.

(** One turn of [for chain_id, start, end in spans]. *)
Definition span_body (chains : model) (st : loop_state)
    (span : string * Z * Z) : loop_state :=
  let '(chain_id, start, end_) := span in
  match chains !! chain_id with
  | None =>
      {| pos_entries := pos_entries st;
         printed := printed st ++ [Chain_not_found chain_id] |}
  | Some residues => foldl (residue_body chain_id start end_) st residues
  end.

(** The two nested loops of [generate_position_list]. *)
Definition collect (chains : model) (spans : list (string * Z * Z))
    : loop_state :=
  foldl (span_body chains) {| pos_entries := []; printed := [] |} spans.

(** [generate_position_list], on a structure given by its models and a
    file system that maps paths to texts.  [None] stands for the
    [KeyError] of [structure[0]]; otherwise the result is the file system
    left and what was printed. *)
Definition generate_position_list (structure : gmap Z model)
    (spans : list (string * Z * Z)) (output_file : string)
    (fs : gmap string string) : option (gmap string string * list message) :=
  match structure !! 0%Z with
  | None => None
  | Some chains =>
      let st := collect chains spans in
      Some (<[ output_file :=
                 foldl Heatmap.write_line EmptyString (pos_entries st) ]> fs,
            printed st ++ [Generated output_file (length (pos_entries st))])
  end.

(** The entry a residue gets under a span, if any. *)
Definition entry_of (chain_id : string) (start end_ : Z) (res : residue)
    : option string :=
  if bool_decide (hetfield res = " " ∧ (start ≤ resseq res ≤ end_)%Z)
  then (λ one_letter, one_letter +:+ chain_id +:+ pretty (resseq res))
         <$> protein_letters_3to1 !! capitalize (resname res)
  else None.

(** The entries of a span: those of the residues of its chain. *)
Definition span_entries (chains : model) (span : string * Z * Z)
    : list string :=
  match chains !! span.1.1 with
  | None => []
  | Some residues => omap (entry_of span.1.1 span.1.2 span.2) residues
  end.

End GeneratePositionList.

End Spans.

(** ** A small installation, for the examples *)

Module Sample.

(** Paths are joined with a slash. *)
Definition joinpath (dir name : string) : string := dir +:+ "/" +:+ name.

(** An external tool that writes its output file and succeeds. *)
Definition tool_ok (cmd : list string) (fs : Heatmap.file_system)
    : bool * Heatmap.file_system :=
  (true, {| Heatmap.files := <[ "heatmap.pdf" := "%PDF" ]> (Heatmap.files fs);
            Heatmap.dirs := Heatmap.dirs fs |}).

(** An external tool that fails without writing. *)
Definition tool_fails (cmd : list string) (fs : Heatmap.file_system)
    : bool * Heatmap.file_system :=
  (false, fs).

Definition args : Heatmap.Namespace :=
  {| Heatmap.pdb := "model.pdb";
     Heatmap.data_directory := "energies";
     Heatmap.mutation_list := "residues.txt";
     Heatmap.position_list := "position_list.txt";
     Heatmap.output := "heatmap.pdf";
     Heatmap.keep_temp := false |}.

Definition args_keep_temp : Heatmap.Namespace :=
  {| Heatmap.pdb := "model.pdb";
     Heatmap.data_directory := "energies";
     Heatmap.mutation_list := "residues.txt";
     Heatmap.position_list := "position_list.txt";
     Heatmap.output := "heatmap.pdf";
     Heatmap.keep_temp := true |}.

Definition position_text : string :=
  "AA25" +:+ String "010" ("GB7" +:+ String "010" EmptyString).

(** Energy files for [AA25] only. *)
Definition fs : Heatmap.file_system :=
  {| Heatmap.files :=
       {[ "model.pdb" := "ATOM"; "residues.txt" := "A";
          "position_list.txt" := position_text;
          "energies/AA25" := "0.5" ]};
     Heatmap.dirs := {[ "energies" ]} |}.

(** The same without the mutation list. *)
Definition fs_no_mutation_list : Heatmap.file_system :=
  {| Heatmap.files :=
       {[ "model.pdb" := "ATOM"; "position_list.txt" := position_text ]};
     Heatmap.dirs := {[ "energies" ]} |}.

(** The same without the data directory. *)
Definition fs_no_data_directory : Heatmap.file_system :=
  {| Heatmap.files :=
       {[ "model.pdb" := "ATOM"; "residues.txt" := "A";
          "position_list.txt" := position_text ]};
     Heatmap.dirs := ∅ |}.

(** Residue names already capitalised, and a table of two amino acids. *)
Definition capitalize (name : string) : string := name.

Definition protein_letters_3to1 : gmap string string :=
  {[ "Ala" := "A"; "Gly" := "G" ]}.

(** One chain: alanine 25, a water, glycine 26 and an unknown residue 27. *)
Definition chains : Spans.model :=
  {[ "A" :=
       [ {| Spans.hetfield := " "; Spans.resseq := 25; Spans.icode := " ";
            Spans.resname := "Ala" |};
         {| Spans.hetfield := "W"; Spans.resseq := 26; Spans.icode := " ";
            Spans.resname := "HOH" |};
         {| Spans.hetfield := " "; Spans.resseq := 26; Spans.icode := " ";
            Spans.resname := "Gly" |};
         {| Spans.hetfield := " "; Spans.resseq := 27; Spans.icode := " ";
            Spans.resname := "Xyz" |} ] ]}.

End Sample.

(** * Properties *)

(** Closed decidable statements are settled by evaluating their decision
    procedure. *)
Ltac by_evaluation := apply (bool_decide_unpack _); vm_compute; exact I.

(** ** Strings *)

Section StringFacts.

Import Py Spec.

Lemma append_cons c (a b : string) : String c a +:+ b = String c (a +:+ b).
Proof. reflexivity. Qed.

Lemma append_empty_l (a : string) : EmptyString +:+ a = a.
Proof. reflexivity. Qed.

Lemma append_empty_r (a : string) : a +:+ EmptyString = a.
Proof. induction a as [|c a IH]; [done|]. by rewrite append_cons, IH. Qed.

Lemma append_assoc (a b c : string) : (a +:+ b) +:+ c = a +:+ b +:+ c.
Proof. induction a as [|x a IH]; [done|]. by rewrite !append_cons, IH. Qed.

Lemma chars_cons c s : chars (String c s) = c :: chars s.
Proof. reflexivity. Qed.

Lemma chars_append a b : chars (a +:+ b) = (chars a ++ chars b)%list.
Proof.
  induction a as [|c a IH]; [done|].
  by rewrite append_cons, !chars_cons, IH.
Qed.

Lemma split_not_nil sep s : split sep s ≠ [].
Proof.
  destruct s as [|c s]; simpl; [done|].
  case_bool_decide; [done|]. by destruct (split sep s).
Qed.

Lemma split_without sep s : sep ∉ chars s → split sep s = [s].
Proof.
  induction s as [|c s IH]; intros Hs; [done|].
  rewrite chars_cons, not_elem_of_cons in Hs. destruct Hs as [Hc Hs].
  simpl. rewrite bool_decide_eq_false_2 by congruence. by rewrite IH.
Qed.

Lemma split_append sep a b :
  sep ∉ chars a → split sep (a +:+ String sep b) = a :: split sep b.
Proof.
  induction a as [|c a IH]; intros Ha.
  - simpl. by rewrite bool_decide_eq_true_2.
  - rewrite chars_cons, not_elem_of_cons in Ha. destruct Ha as [Hc Ha].
    rewrite append_cons. simpl.
    rewrite bool_decide_eq_false_2 by congruence. by rewrite IH.
Qed.

Lemma split_parts_without sep s :
  Forall (λ part, sep ∉ chars part) (split sep s).
Proof.
  induction s as [|c s IH]; simpl.
  - repeat constructor. unfold chars; simpl. apply not_elem_of_nil.
  - case_bool_decide as Hc.
    + constructor; [apply not_elem_of_nil | done].
    + destruct (split sep s) as [|part parts]; inversion IH; subst.
      * repeat constructor. rewrite chars_cons.
        apply not_elem_of_cons. split; [congruence | apply not_elem_of_nil].
      * constructor; [|done]. rewrite chars_cons.
        apply not_elem_of_cons. split; [congruence | done].
Qed.

Lemma join_cons sep p q ps :
  join sep (p :: q :: ps) = p +:+ sep +:+ join sep (q :: ps).
Proof. reflexivity. Qed.

Lemma join_split sep s : join (String sep EmptyString) (split sep s) = s.
Proof.
  induction s as [|c s IH]; [done|]. simpl split.
  case_bool_decide as Hc.
  - subst c. pose proof (split_not_nil sep s) as Hne.
    destruct (split sep s) as [|q ps]; [done|].
    rewrite join_cons, IH. reflexivity.
  - pose proof (split_not_nil sep s) as Hne.
    destruct (split sep s) as [|q ps]; [done|].
    destruct ps as [|q' ps].
    + simpl in *. by rewrite IH.
    + rewrite join_cons in *. rewrite append_cons. by rewrite IH.
Qed.

Lemma split_join sep parts :
  parts ≠ [] → Forall (λ part, sep ∉ chars part) parts →
  split sep (join (String sep EmptyString) parts) = parts.
Proof.
  induction parts as [|p ps IH]; [done|]. intros _ Hall.
  inversion Hall as [|?? Hp Hps]; subst.
  destruct ps as [|q ps].
  - simpl. by apply split_without.
  - rewrite join_cons. rewrite append_cons. change (EmptyString +:+ ?x) with x.
    rewrite split_append by done. f_equal. by apply IH.
Qed.

End StringFacts.

(** ** The two regular expressions *)

Section RegexFacts.

Import Py Spec.

Lemma isupper_range c : isupper c = true ↔ (65 ≤ ord c ≤ 90)%N.
Proof.
  unfold isupper. rewrite andb_true_iff, !N.leb_le. reflexivity.
Qed.

Lemma isdigit_range c : isdigit c = true ↔ (48 ≤ ord c ≤ 57)%N.
Proof.
  unfold isdigit. rewrite andb_true_iff, !N.leb_le. reflexivity.
Qed.

Lemma upper_not_digit c : isupper c = true → isdigit c = false.
Proof.
  rewrite isupper_range. intros Hc.
  destruct (isdigit c) eqn:Hd; [|done].
  apply isdigit_range in Hd. lia.
Qed.

Lemma fullmatch_upper_spec s : fullmatch_upper s = true ↔ uppercase_letter s.
Proof.
  unfold uppercase_letter. split.
  - destruct s as [|c [|??]]; simpl; try done.
    intros Hc. exists c. by rewrite <- isupper_range.
  - intros (c & -> & Hc). simpl. by apply isupper_range.
Qed.

Lemma digits_nil : digits EmptyString.
Proof. constructor. Qed.

Lemma digits_cons c s : digits (String c s) ↔ isdigit c = true ∧ digits s.
Proof.
  unfold digits. rewrite chars_cons, Forall_cons, isdigit_range. reflexivity.
Qed.

(** What the greedy run returns: a split of the text, digits on the left,
    and on the right nothing or a text that starts with a non-digit. *)
Lemma span_digits_spec s ds rest :
  span_digits s = (ds, rest) ↔
  s = ds +:+ rest ∧ digits ds
  ∧ match rest with String c _ => isdigit c = false | EmptyString => True end.
Proof.
  revert ds rest. induction s as [|c s IH]; intros ds rest; simpl.
  - split.
    + intros [= <- <-]. repeat split. apply digits_nil.
    + intros (Hs & _ & _). destruct ds as [|d ds].
      * rewrite append_empty_l in Hs. by subst.
      * by rewrite append_cons in Hs.
  - destruct (isdigit c) eqn:Hc.
    + destruct (span_digits s) as [ds' rest'] eqn:Hspan. split.
      * intros [= <- <-].
        destruct (proj1 (IH ds' rest') eq_refl) as (-> & Hds & Hrest).
        rewrite digits_cons. by repeat split.
      * intros (Heq & Hds & Hrest). destruct ds as [|d ds].
        { rewrite append_empty_l in Heq. subst rest. congruence. }
        rewrite append_cons in Heq. injection Heq as <- Heq.
        apply digits_cons in Hds as [_ Hds].
        assert ((ds', rest') = (ds, rest)) as Hspan2
          by (apply IH; by repeat split).
        congruence.
    + split.
      * intros [= <- <-]. repeat split; [apply digits_nil | done].
      * intros (Heq & Hds & Hrest). destruct ds as [|d ds].
        -- rewrite append_empty_l in Heq. by subst.
        -- rewrite append_cons in Heq. injection Heq as <- _.
           apply digits_cons in Hds as [Hd _]. congruence.
Qed.

(** The matcher returns exactly the decompositions the expression
    [(\d+)([A-Z]?)] describes. *)
Lemma fullmatch_resnum_spec s group1 group2 :
  fullmatch_resnum s = Some (group1, group2) ↔
  s = group1 +:+ group2 ∧ group1 ≠ EmptyString ∧ digits group1
  ∧ (group2 = EmptyString ∨ uppercase_letter group2).
Proof.
  unfold fullmatch_resnum.
  destruct (span_digits s) as [ds rest] eqn:Hspan.
  split.
  - apply span_digits_spec in Hspan as (-> & Hds & Hrest).
    destruct ds as [|d ds]; [done|].
    destruct rest as [|c [|??]]; try done.
    + intros [= <- <-]. repeat split; [done | done | by left].
    + destruct (isupper c) eqn:Hc; [|done].
      intros [= <- <-]. repeat split; [done | done |].
      right. apply fullmatch_upper_spec. done.
  - intros (-> & Hne & Hds & Hsuffix).
    assert (span_digits (group1 +:+ group2) = (group1, group2)) as Hspan2.
    { apply span_digits_spec. repeat split; [done|].
      destruct Hsuffix as [-> | (c & -> & Hc)]; [done|].
      apply upper_not_digit, isupper_range, Hc. }
    rewrite Hspan in Hspan2. injection Hspan2 as -> ->.
    destruct group1 as [|d ds]; [done|].
    destruct Hsuffix as [-> | (c & -> & Hc)]; [done|].
    apply isupper_range in Hc. by rewrite Hc.
Qed.

Lemma fullmatch_resnum_some s :
  is_Some (fullmatch_resnum s) ↔ residue_number s.
Proof.
  unfold residue_number. split.
  - intros [[g1 g2] Hm]. exists g1, g2. by apply fullmatch_resnum_spec.
  - intros (g1 & g2 & Hm). exists (g1, g2). by apply fullmatch_resnum_spec.
Qed.

Lemma fullmatch_resnum_none s :
  fullmatch_resnum s = None ↔ ¬ residue_number s.
Proof.
  rewrite <- fullmatch_resnum_some, <- eq_None_not_Some. reflexivity.
Qed.

End RegexFacts.

(** ** The token parser *)

Section ParserFacts.

Import Py Spec Mutinfo.

Lemma dot_parts_split token parts :
  dot_parts token parts ↔ parts = split "." token.
Proof.
  unfold dot_parts. split.
  - intros (Hne & Hall & ->). symmetry. by apply split_join.
  - intros ->. split; [apply split_not_nil|].
    split; [apply split_parts_without|]. symmetry. apply join_split.
Qed.

(** Acceptance, read off the parts of the token. *)
Lemma extract_position_some token t :
  _extract_position token = Some t ↔
  ∃ chain wt_aa resnum_str others group1 group2,
    split "." token = chain :: wt_aa :: resnum_str :: others
    ∧ uppercase_letter wt_aa
    ∧ fullmatch_resnum resnum_str = Some (group1, group2)
    ∧ t = (wt_aa, chain, resnum_str, int group1).
Proof.
  unfold _extract_position.
  destruct (split "." token) as [|chain [|wt [|resnum others]]] eqn:Hparts;
    simpl; try (split; [done | by intros (?&?&?&?&?&?&?&?)]).
  destruct (fullmatch_upper wt) eqn:Hwt; simpl.
  - apply fullmatch_upper_spec in Hwt.
    destruct (fullmatch_resnum resnum) as [[g1 g2]|] eqn:Hres; split.
    + intros [= <-]. by exists chain, wt, resnum, others, g1, g2.
    + intros (?&?&?&?&?&?& [= <- <- <- <-] & _ & Hres2 & ->).
      rewrite Hres in Hres2. by injection Hres2 as <- <-.
    + done.
    + intros (?&?&?&?&?&?& [= <- <- <- <-] & _ & Hres2 & _).
      rewrite Hres in Hres2. done.
  - split; [done|].
    intros (?&?&?&?&?&?& [= <- <- <- <-] & Hup & _).
    apply fullmatch_upper_spec in Hup. congruence.
Qed.

(** Rejection is exactly the invalidity the specification words. *)
Lemma extract_position_none token :
  _extract_position token = None ↔ invalid_token token.
Proof.
  unfold invalid_token. split.
  - intros Hnone. exists (split "." token).
    split; [by apply dot_parts_split|].
    unfold _extract_position in Hnone.
    destruct (split "." token) as [|chain [|wt [|resnum others]]];
      simpl in *; try (left; lia).
    destruct (fullmatch_upper wt) eqn:Hwt; simpl in Hnone.
    + right; right. exists resnum. split; [done|].
      apply fullmatch_resnum_none.
      by destruct (fullmatch_resnum resnum) as [[??]|].
    + right; left. exists wt. split; [done|].
      rewrite <- fullmatch_upper_spec. congruence.
  - intros (parts & Hparts%dot_parts_split & Hbad). subst parts.
    destruct (_extract_position token) as [t|] eqn:Hsome; [|done].
    exfalso.
    apply extract_position_some in Hsome
      as (chain & wt & resnum & others & g1 & g2 & Hsplit & Hwt & Hres & _).
    rewrite Hsplit in Hbad. simpl in Hbad.
    destruct Hbad as [Hlen | [(? & [= <-] & Hbad) | (? & [= <-] & Hbad)]].
    + lia.
    + done.
    + apply Hbad, fullmatch_resnum_some. by eexists.
Qed.

(** A token written as four dot-free parts. *)
Lemma split_four chain wt_aa resnum_str mut_aa :
  "."%char ∉ chars chain → "."%char ∉ chars wt_aa →
  "."%char ∉ chars resnum_str → "."%char ∉ chars mut_aa →
  split "." (chain +:+ "." +:+ wt_aa +:+ "." +:+ resnum_str +:+ "." +:+ mut_aa)
  = [chain; wt_aa; resnum_str; mut_aa].
Proof.
  intros Hc Hw Hr Hm.
  change (split "." (join "." [chain; wt_aa; resnum_str; mut_aa])
          = [chain; wt_aa; resnum_str; mut_aa]).
  apply split_join; [done|]. by repeat constructor.
Qed.




End ParserFacts.

(** ** The reading loop *)

Section LoopFacts.

Import Py Spec Mutinfo.

Lemma loop_body_from st raw_line :
  loop_body st raw_line =
  {| positions := positions (loop_body loop_start raw_line) ∪ positions st;
     printed := printed st ++ printed (loop_body loop_start raw_line) |}.
Proof.
  destruct st as [ps out]. unfold loop_body, loop_start; simpl.
  destruct (bool_decide _ || _); simpl.
  - by rewrite (left_id_L ∅ (∪)), app_nil_r.
  - destruct (_extract_position _) as [t|]; simpl.
    + by rewrite (right_id_L ∅ (∪)), app_nil_r.
    + by rewrite (left_id_L ∅ (∪)).
Qed.

Lemma foldl_loop_body st fh :
  foldl loop_body st fh =
  {| positions := positions (read_loop fh) ∪ positions st;
     printed := printed st ++ printed (read_loop fh) |}.
Proof.
  unfold read_loop. induction fh as [|raw_line fh IH] using rev_ind.
  - destruct st. simpl. by rewrite (left_id_L ∅ (∪)), app_nil_r.
  - rewrite !foldl_app. simpl. rewrite IH.
    rewrite (loop_body_from (foldl _ _ _)).
    rewrite (loop_body_from (LoopState _ _)). simpl.
    by rewrite (assoc_L (∪)), app_assoc.
Qed.

Lemma read_loop_app fh1 fh2 :
  read_loop (fh1 ++ fh2) =
  {| positions := positions (read_loop fh1) ∪ positions (read_loop fh2);
     printed := printed (read_loop fh1) ++ printed (read_loop fh2) |}.
Proof.
  unfold read_loop at 1. rewrite foldl_app.
  fold (read_loop fh1). rewrite foldl_loop_body.
  by rewrite (comm_L (∪)).
Qed.

Lemma read_loop_cons raw_line fh :
  read_loop (raw_line :: fh) =
  {| positions := positions (loop_body loop_start raw_line)
                  ∪ positions (read_loop fh);
     printed := printed (loop_body loop_start raw_line)
                ++ printed (read_loop fh) |}.
Proof. apply (read_loop_app [raw_line] fh). Qed.

Lemma loop_body_positions raw_line :
  positions (loop_body loop_start raw_line) =
  match record_of raw_line with Some t => {[ t ]} | None => ∅ end.
Proof.
  unfold loop_body, record_of.
  destruct (bool_decide _ || _); [done|].
  destruct (_extract_position _); simpl; [|done].
  by rewrite (right_id_L ∅ (∪)).
Qed.

(** The set holds exactly the records of the lines read. *)
Lemma elem_of_positions t fh :
  t ∈ positions (read_loop fh) ↔
  ∃ raw_line, raw_line ∈ fh ∧ record_of raw_line = Some t.
Proof.
  induction fh as [|raw_line fh IH].
  - split; [set_solver|]. intros (? & Hin & _). by apply elem_of_nil in Hin.
  - rewrite read_loop_cons. simpl. rewrite elem_of_union, IH.
    rewrite loop_body_positions. split.
    + intros [Hhere | (raw' & Hin & Hrec)].
      * exists raw_line. split; [left|].
        destruct (record_of raw_line); set_solver.
      * exists raw'. split; [by right | done].
    + intros (raw' & Hin & Hrec). apply elem_of_cons in Hin as [-> | Hin].
      * left. rewrite Hrec. set_solver.
      * right. by exists raw'.
Qed.

Lemma positions_Permutation fh1 fh2 :
  fh1 ≡ₚ fh2 → positions (read_loop fh1) = positions (read_loop fh2).
Proof.
  intros Hperm. apply set_eq. intros t. rewrite !elem_of_positions.
  by setoid_rewrite Hperm.
Qed.

End LoopFacts.

(** ** Sorting *)

Section SortFacts.

Import Py Spec Mutinfo.

Lemma insert_sorted_Permutation {A K} (lt : K → K → bool) (key : A → K) x l :
  insert_sorted lt key x l ≡ₚ x :: l.
Proof.
  induction l as [|y l IH]; simpl; [done|].
  destruct (lt (key y) (key x)); [|done].
  rewrite IH. apply Permutation_swap.
Qed.

Lemma sorted_Permutation {A K} (lt : K → K → bool) (key : A → K) l :
  sorted lt key l ≡ₚ l.
Proof.
  induction l as [|x l IH]; simpl; [done|].
  by rewrite insert_sorted_Permutation, IH.
Qed.

Lemma ltb_false_le (a b : string) :
  a ≠ b → String.ltb a b = false ↔ (b ≤ a)%string.
Proof.
  intros Hne. unfold String.le, String.ltb, String.leb.
  rewrite (String.compare_antisym a b).
  destruct (String.compare b a) eqn:Hcmp; simpl.
  - apply String.compare_eq_iff in Hcmp. by subst.
  - done.
  - split; [done | by intros []].
Qed.

(** [key_lt] is the strict part of the order of the specification. *)
Lemma key_lt_false p q :
  key_lt (sort_key q) (sort_key p) = false ↔ chain_then_number p q.
Proof.
  unfold key_lt, chain_then_number, sort_key; simpl.
  case_bool_decide as Heq.
  - rewrite Heq, Z.ltb_ge. split.
    + intros Hle. by split.
    + intros [_ Hle]. by apply Hle.
  - rewrite ltb_false_le by done. split.
    + intros Hle. split; [done|]. congruence.
    + by intros [Hle _].
Qed.

Lemma chain_then_number_total p q :
  chain_then_number p q ∨ chain_then_number q p.
Proof.
  rewrite <- !key_lt_false. unfold key_lt, sort_key; simpl.
  destruct (decide (chain_of p = chain_of q)) as [Heq | Hne].
  - rewrite !bool_decide_eq_true_2 by done. rewrite !Z.ltb_ge. lia.
  - rewrite !bool_decide_eq_false_2 by done.
    rewrite !ltb_false_le by done. apply (total String.le).
Qed.

#[local] Instance chain_then_number_trans : Transitive chain_then_number.
Proof.
  intros p q r [Hpq Hpq'] [Hqr Hqr']. split.
  - by trans (chain_of q).
  - intros Heq. rewrite Heq in Hpq.
    assert (chain_of q = chain_of r) as Hq by by apply (anti_symm String.le).
    specialize (Hqr' Hq). rewrite <- Hq in Heq. specialize (Hpq' Heq). lia.
Qed.

Lemma insert_sorted_StronglySorted t l :
  StronglySorted chain_then_number l →
  StronglySorted chain_then_number (insert_sorted key_lt sort_key t l).
Proof.
  induction 1 as [|y l Hl IH Hy]; simpl.
  - by repeat constructor.
  - destruct (key_lt (sort_key y) (sort_key t)) eqn:Hlt.
    + constructor; [done|].
      rewrite insert_sorted_Permutation. constructor; [|done].
      destruct (chain_then_number_total y t) as [|Hty]; [done|].
      apply key_lt_false in Hty. congruence.
    + apply key_lt_false in Hlt. constructor.
      * by constructor.
      * constructor; [done|].
        eapply Forall_impl; [exact Hy|]. intros z Hz. by trans y.
Qed.

Lemma sorted_StronglySorted l :
  StronglySorted chain_then_number (sorted key_lt sort_key l).
Proof.
  induction l as [|t l IH]; simpl; [constructor|].
  by apply insert_sorted_StronglySorted.
Qed.

(** With pairwise distinct keys the sorted list is a function of the set
    of its members. *)
Lemma sorted_unique l1 l2 :
  l1 ≡ₚ l2 →
  (∀ p q, p ∈ l1 → q ∈ l1 → sort_key p = sort_key q → p = q) →
  sorted key_lt sort_key l1 = sorted key_lt sort_key l2.
Proof.
  intros Hperm Hinj.
  apply (StronglySorted_unique_strong chain_then_number).
  - intros p q Hp Hq [Hpq Hpq'] [Hqp Hqp'].
    rewrite sorted_Permutation in Hp. rewrite sorted_Permutation in Hq.
    rewrite <- Hperm in Hq.
    assert (chain_of p = chain_of q) as Hc by by apply (anti_symm String.le).
    apply Hinj; [done..|]. unfold sort_key. f_equal; [done|].
    specialize (Hpq' Hc). symmetry in Hc. specialize (Hqp' Hc). lia.
  - apply sorted_StronglySorted.
  - apply sorted_StronglySorted.
  - by rewrite !sorted_Permutation.
Qed.

End SortFacts.

(** ** Tokens and the accumulation set *)

Section TokenClaims.

Import Py Spec Mutinfo.

(** Only the first three parts of a token are looked at. *)
Lemma extract_position_first_three token1 token2 :
  take 3 (split "." token1) = take 3 (split "." token2) →
  _extract_position token1 = _extract_position token2.
Proof.
  unfold _extract_position.
  destruct (split "." token1) as [|a1 [|b1 [|c1 r1]]];
    destruct (split "." token2) as [|a2 [|b2 [|c2 r2]]];
    simpl; intros [=]; by subst.
Qed.

Lemma record_of_candidate raw_line :
  candidate raw_line →
  record_of raw_line = _extract_position (first_field (strip raw_line)).
Proof.
  intros [Hblank Hcomment]. unfold record_of.
  by rewrite bool_decide_eq_false_2, Hcomment.
Qed.

Lemma set_iteration_singleton iter (t : Position) :
  set_iteration iter → iter {[ t ]} = [t].
Proof.
  intros Hiter. apply Permutation_singleton_r.
  by rewrite (Hiter {[ t ]}), elements_singleton.
Qed.

Lemma set_iteration_empty iter : set_iteration iter → iter ∅ = [].
Proof.
  intros Hiter. apply Permutation_nil_r.
  by rewrite (Hiter ∅), elements_empty.
Qed.


(** C1, the claim as worded fails: two lines that differ only in the mutant
    residue leave one entry in the accumulation set, not two. *)
Lemma mutant_variants_single_entry :
  positions (read_loop ["A.A.25.A,A-A25A,A25A,A25"; "A.A.25.C,A-A25C,A25C,A25"])
  = {[ ("A", "A", "25", 25%Z) ]}
  ∧ size (positions (read_loop ["A.A.25.A,A-A25A,A25A,A25";
                                "A.A.25.C,A-A25C,A25C,A25"])) ≠ 2.
Proof. split; [by vm_compute | by vm_compute]. Qed.

(** C1, amended: two candidate lines whose tokens agree on the chain, the
    wild-type residue and the residue number, the first of them valid,
    parse to the same tuple (the mutant residue is not part of it); the
    accumulation set then holds that single entry and the output is its
    identifier, once. *)
Theorem mutant_variants_collapse iter raw1 raw2 t :
  set_iteration iter →
  candidate raw1 → candidate raw2 →
  take 3 (split "." (first_field (strip raw1)))
  = take 3 (split "." (first_field (strip raw2))) →
  _extract_position (first_field (strip raw1)) = Some t →
  _extract_position (first_field (strip raw2)) = Some t
  ∧ positions (read_loop [raw1; raw2]) = {[ t ]}
  ∧ (generate_position_list iter [raw1; raw2]).1
    = [_position_identifier (wt_aa_of t) (chain_of t) (resnum_str_of t)].
Proof.
  intros Hiter Hc1 Hc2 Hsame Hvalid.
  assert (_extract_position (first_field (strip raw2)) = Some t) as Hvalid2.
  { by rewrite <- (extract_position_first_three _ _ Hsame). }
  assert (positions (read_loop [raw1; raw2]) = {[ t ]}) as Hset.
  { rewrite !read_loop_cons. simpl. rewrite !loop_body_positions.
    rewrite !record_of_candidate by done. rewrite Hvalid, Hvalid2.
    change (positions (read_loop [])) with (∅ : gset Position).
    by rewrite (right_id_L ∅ (∪)), (idemp_L (∪)). }
  split; [done|]. split; [done|].
  unfold generate_position_list. simpl. rewrite Hset.
  by rewrite set_iteration_singleton.
Qed.

Lemma mutant_variants_collapse_witness :
  (generate_position_list elements
     ["A.A.25.A,A-A25A,A25A,A25"; "A.A.25.C,A-A25C,A25C,A25"]).1 = ["AA25"].
Proof.
  refine (proj2 (proj2 (mutant_variants_collapse elements
    "A.A.25.A,A-A25A,A25A,A25" "A.A.25.C,A-A25C,A25C,A25"
    ("A", "A", "25", 25%Z) _ _ _ _ _))).
  - intros s. reflexivity.
  - split; [by vm_compute | reflexivity].
  - split; [by vm_compute | reflexivity].
  - reflexivity.
  - reflexivity.
Defined.




End TokenClaims.

(** ** Validation *)

Section ValidationClaims.

Import Py Spec Mutinfo.

(** C8, the claim as worded fails: a token whose chain part is empty is
    accepted and its line yields an output entry. *)
Lemma empty_chain_accepted :
  _extract_position ".A.25.A" = Some ("A", "", "25", 25%Z)
  ∧ generate_position_list elements [".A.25.A,-A25A,A25A,A25"]
    = (["A25"], []).
Proof. split; [reflexivity | by vm_compute]. Qed.

(** C8, amended: the parser does not validate the chain part.  Whether a
    token is accepted does not depend on its first dot-separated part,
    which may be empty, and the chain of an accepted token is that part. *)
Theorem chain_not_validated chain rest :
  "."%char ∉ chars chain →
  (is_Some (_extract_position (chain +:+ "." +:+ rest))
   ↔ is_Some (_extract_position ("." +:+ rest)))
  ∧ (∀ t, _extract_position (chain +:+ "." +:+ rest) = Some t →
          chain_of t = chain).
Proof.
  intros Hchain.
  assert (split "." (chain +:+ "." +:+ rest) = chain :: split "." rest)
    as Hsplit by by apply split_append.
  assert (split "." ("." +:+ rest) = EmptyString :: split "." rest)
    as Hsplit0 by reflexivity.
  unfold _extract_position. rewrite Hsplit, Hsplit0.
  destruct (split "." rest) as [|wt [|resnum others]]; simpl;
    try (split; [done | by intros ?]).
  destruct (fullmatch_upper wt); simpl; [|split; [done | by intros ?]].
  destruct (fullmatch_resnum resnum) as [[g1 g2]|];
    [|split; [done | by intros ?]].
  split; [by split; intros _; eexists | by intros ? [= <-]].
Qed.

Lemma chain_not_validated_witness :
  is_Some (_extract_position "AB.A.25.A")
  ↔ is_Some (_extract_position ".A.25.A").
Proof.
  refine (proj1 (chain_not_validated "AB" "A.25.A" _)). by_evaluation.
Defined.

(** C3: a token is rejected exactly when it has fewer than three
    dot-separated parts, or its second part is not one uppercase letter, or
    its third part is not digits followed by at most one uppercase letter.
    A candidate line with such a token adds nothing to the set, has one
    warning printed that carries the line, and leaves the reading of the
    lines before and after it, and the output, as they are without it. *)
Theorem invalid_token_skipped iter fh1 raw_line fh2 token :
  (_extract_position token = None ↔ invalid_token token)
  ∧ (candidate raw_line →
     invalid_token (first_field (strip raw_line)) →
     loop_body loop_start raw_line
     = {| positions := ∅; printed := [Warn_skipping (strip raw_line)] |}
     ∧ positions (read_loop (fh1 ++ raw_line :: fh2))
       = positions (read_loop (fh1 ++ fh2))
     ∧ printed (read_loop (fh1 ++ raw_line :: fh2))
       = printed (read_loop fh1)
         ++ Warn_skipping (strip raw_line) :: printed (read_loop fh2)
     ∧ (generate_position_list iter (fh1 ++ raw_line :: fh2)).1
       = (generate_position_list iter (fh1 ++ fh2)).1).
Proof.
  split; [apply extract_position_none|].
  intros [Hblank Hcomment] Hinvalid%extract_position_none.
  assert (loop_body loop_start raw_line
          = {| positions := ∅; printed := [Warn_skipping (strip raw_line)] |})
    as Hbody.
  { unfold loop_body. rewrite bool_decide_eq_false_2, Hcomment by done.
    simpl. by rewrite Hinvalid. }
  assert (positions (read_loop (fh1 ++ raw_line :: fh2))
          = positions (read_loop (fh1 ++ fh2))) as Hset.
  { rewrite !read_loop_app. simpl. rewrite read_loop_cons. simpl.
    rewrite Hbody. simpl. by rewrite (left_id_L ∅ (∪)). }
  repeat split; [done | done | |].
  - rewrite read_loop_app. simpl. rewrite read_loop_cons. simpl.
    by rewrite Hbody.
  - unfold generate_position_list. simpl. by rewrite Hset.
Qed.

Lemma invalid_token_skipped_witness :
  (generate_position_list elements
     (["B.G.7.C,B-G7C,G7C,G7"]
      ++ "A.1.25.A,A-125A,125A,125" :: ["A.A.25.A,A-A25A,A25A,A25"])).1
  = (generate_position_list elements
       (["B.G.7.C,B-G7C,G7C,G7"] ++ ["A.A.25.A,A-A25A,A25A,A25"])).1.
Proof.
  apply (invalid_token_skipped elements
    ["B.G.7.C,B-G7C,G7C,G7"] "A.1.25.A,A-125A,125A,125"
    ["A.A.25.A,A-A25A,A25A,A25"] "A.1.25.A").
  - split; [by vm_compute | reflexivity].
  - apply (invalid_token_skipped elements [] EmptyString [] "A.1.25.A").
    reflexivity.
Defined.

End ValidationClaims.

(** ** Order of the output *)

Section OrderClaims.

Import Py Spec Mutinfo.

Lemma NoDup_fmap_distinct {A B} (f : A → B) (l : list A) x y :
  NoDup (f <$> l) → x ∈ l → y ∈ l → f x = f y → x = y.
Proof.
  induction l as [|z l IH]; intros Hnd Hx Hy Hf.
  - by apply elem_of_nil in Hx.
  - rewrite fmap_cons in Hnd. apply NoDup_cons in Hnd as [Hz Hnd].
    apply elem_of_cons in Hx as [-> | Hx]; apply elem_of_cons in Hy as [-> | Hy].
    + done.
    + exfalso. apply Hz. rewrite Hf. by apply list_elem_of_fmap_2.
    + exfalso. apply Hz. rewrite <- Hf. by apply list_elem_of_fmap_2.
    + by apply IH.
Qed.

Lemma distinct_sort_keys_NoDup (s : gset Position) :
  NoDup (sort_key <$> elements s) → distinct_sort_keys s.
Proof.
  intros Hnd p q Hp Hq. apply (NoDup_fmap_distinct _ _ _ _ Hnd).
  - by apply elem_of_elements.
  - by apply elem_of_elements.
Qed.

(** With pairwise distinct sort keys, the enumeration of the set does not
    show in the result. *)
Lemma generate_position_list_any_iteration iter fh :
  set_iteration iter →
  distinct_sort_keys (positions (read_loop fh)) →
  (generate_position_list iter fh).1 = (generate_position_list elements fh).1.
Proof.
  intros Hiter Hkeys. unfold generate_position_list. simpl. f_equal.
  apply sorted_unique; [apply Hiter|].
  intros p q Hp Hq. rewrite (Hiter _) in Hp. rewrite (Hiter _) in Hq.
  apply elem_of_elements in Hp. apply elem_of_elements in Hq. by apply Hkeys.
Qed.

(** Every member of the set carries the integer value of the digits its
    residue number starts with. *)
Lemma positions_numeric_prefix t fh :
  t ∈ positions (read_loop fh) →
  ∃ ds suffix,
    resnum_str_of t = ds +:+ suffix ∧ ds ≠ EmptyString ∧ digits ds
    ∧ (suffix = EmptyString ∨ uppercase_letter suffix)
    ∧ resnum_int_of t = int ds.
Proof.
  intros (raw_line & _ & Hrec)%elem_of_positions.
  unfold record_of in Hrec. destruct (bool_decide _ || _); [done|].
  apply extract_position_some in Hrec
    as (chain & wt & resnum & others & g1 & g2 & _ & _ & Hres & ->).
  apply fullmatch_resnum_spec in Hres as (-> & Hne & Hds & Hsuffix).
  by exists g1, g2.
Qed.

(** C2, at the failing input: two records whose chain and residue number
    concatenate to the same text give the same identifier twice. *)
Theorem duplicate_identifier_lines iter :
  set_iteration iter →
  (generate_position_list iter
     ["A1.A.25.C,A1-A25C,A25C,A25"; "A.A.125.C,A-A125C,A125C,A125"]).1
  = ["AA125"; "AA125"].
Proof.
  intros Hiter. rewrite generate_position_list_any_iteration; [|done|].
  - by vm_compute.
  - apply distinct_sort_keys_NoDup. by_evaluation.
Qed.

Lemma duplicate_identifier_lines_witness :
  (generate_position_list (reverse ∘ elements)
     ["A1.A.25.C,A1-A25C,A25C,A25"; "A.A.125.C,A-A125C,A125C,A125"]).1
  = ["AA125"; "AA125"].
Proof.
  apply (duplicate_identifier_lines (reverse ∘ elements)).
  intros s. apply reverse_Permutation.
Defined.



(** C5, the claim as worded fails: on two records with the same chain and
    the same leading digits, two admissible enumerations of the set give
    two different outputs. *)
Lemma tie_order_follows_enumeration :
  set_iteration elements ∧ set_iteration (reverse ∘ elements)
  ∧ (generate_position_list elements
       ["A.A.25.C,A-A25C,A25C,A25"; "A.A.25A.C,A-A25AC,A25AC,A25A"]).1
    = ["AA25A"; "AA25"]
  ∧ (generate_position_list (reverse ∘ elements)
       ["A.A.25.C,A-A25C,A25C,A25"; "A.A.25A.C,A-A25AC,A25AC,A25A"]).1
    = ["AA25"; "AA25A"].
Proof.
  split; [by intros s|]. split; [intros s; apply reverse_Permutation|].
  split; by vm_compute.
Qed.

(** C5, amended: when the accumulated tuples have pairwise distinct
    (chain, integer) sort keys, the identifier list is the same for every
    enumeration of the set and for every reordering of the input lines; in
    particular two runs on the same input agree. *)
Theorem output_order_insensitive iter1 iter2 fh1 fh2 :
  set_iteration iter1 → set_iteration iter2 →
  fh1 ≡ₚ fh2 →
  distinct_sort_keys (positions (read_loop fh1)) →
  (generate_position_list iter1 fh1).1 = (generate_position_list iter2 fh2).1.
Proof.
  intros Hiter1 Hiter2 Hperm Hkeys.
  pose proof (positions_Permutation _ _ Hperm) as Hset.
  rewrite (generate_position_list_any_iteration iter1) by done.
  rewrite (generate_position_list_any_iteration iter2);
    [|done | by rewrite <- Hset].
  unfold generate_position_list. simpl. by rewrite Hset.
Qed.

Lemma output_order_insensitive_witness :
  (generate_position_list elements
     ["B.G.7.C,B-G7C,G7C,G7"; "A.A.25.C,A-A25C,A25C,A25"]).1
  = (generate_position_list (reverse ∘ elements)
       ["A.A.25.C,A-A25C,A25C,A25"; "B.G.7.C,B-G7C,G7C,G7"]).1.
Proof.
  apply output_order_insensitive.
  - intros s. reflexivity.
  - intros s. apply reverse_Permutation.
  - apply Permutation_swap.
  - apply distinct_sort_keys_NoDup. by_evaluation.
Defined.

End OrderClaims.

(** ** The command-line entry point *)

Section MainClaims.

Import Py Spec Mutinfo.

Lemma record_of_none raw_line :
  record_of raw_line = None ↔
  strip raw_line = EmptyString
  ∨ startswith "#" (strip raw_line) = true
  ∨ invalid_token (first_field (strip raw_line)).
Proof.
  unfold record_of. rewrite <- extract_position_none.
  case_bool_decide as Hblank; simpl; [by split; [left|]|].
  destruct (startswith "#" (strip raw_line)); [by split; [right; left|]|].
  split; [by right; right|]. by intros [? | [? | ?]].
Qed.

Lemma positions_empty fh :
  Forall (λ raw_line, record_of raw_line = None) fh →
  positions (read_loop fh) = ∅.
Proof.
  intros Hall. apply elem_of_equiv_empty_L.
  intros t (raw_line & Hin & Hrec)%elem_of_positions.
  rewrite Forall_forall in Hall. specialize (Hall _ Hin). congruence.
Qed.

(** C6: when the mutinfo path names no file, the run ends with the
    [SystemExit] that names the path, prints nothing else, and leaves every
    file as it was: no output file is created or modified. *)
Theorem missing_mutinfo_aborts iter args fs :
  fs !! mutinfo args = None →
  main iter args fs = (SystemExit_not_found (mutinfo args), fs, []).
Proof. intros Hmissing. unfold main. by rewrite Hmissing. Qed.

Lemma missing_mutinfo_aborts_witness :
  main elements {| mutinfo := "flexddg/mutinfo.txt"; output := "position_list.txt" |}
       {[ "position_list.txt" := "AA25" ]}
  = (SystemExit_not_found "flexddg/mutinfo.txt",
     {[ "position_list.txt" := "AA25" ]}, []).
Proof.
  apply (missing_mutinfo_aborts elements
    {| mutinfo := "flexddg/mutinfo.txt"; output := "position_list.txt" |}).
  by vm_compute.
Defined.

(** C10: when the mutinfo file exists and each of its lines is blank, a
    comment or carries an invalid token, the run returns normally, the
    output file holds exactly one newline character, and the count printed
    last is 0. *)
Theorem no_valid_record_writes_newline iter args fs text :
  set_iteration iter →
  fs !! mutinfo args = Some text →
  Forall (λ raw_line,
            strip raw_line = EmptyString
            ∨ startswith "#" (strip raw_line) = true
            ∨ invalid_token (first_field (strip raw_line)))
         (file_lines text) →
  main iter args fs
  = (Returned,
     <[ output args := String "010" EmptyString ]> fs,
     printed (read_loop (file_lines text)) ++ [Wrote 0 (output args)]).
Proof.
  intros Hiter Hfile Hlines. unfold main. rewrite Hfile.
  unfold generate_position_list.
  rewrite positions_empty, set_iteration_empty by
    (done || (eapply Forall_impl; [exact Hlines|]; intros ?; apply record_of_none)).
  reflexivity.
Qed.

Lemma no_valid_record_writes_newline_witness :
  main elements {| mutinfo := "mutinfo.txt"; output := "position_list.txt" |}
       {[ "mutinfo.txt" :=
            "# header" +:+ String "010" (String "010" "A.1.25.A,A-125A") ]}
  = (Returned,
     <[ "position_list.txt" := String "010" EmptyString ]>
       {[ "mutinfo.txt" :=
            "# header" +:+ String "010" (String "010" "A.1.25.A,A-125A") ]},
     [Warn_skipping "A.1.25.A,A-125A"; Wrote 0 "position_list.txt"]).
Proof.
  apply (no_valid_record_writes_newline elements
    {| mutinfo := "mutinfo.txt"; output := "position_list.txt" |} _
    ("# header" +:+ String "010" (String "010" "A.1.25.A,A-125A"))).
  - intros s. reflexivity.
  - by vm_compute.
  - match goal with
    | |- Forall _ ?lines =>
        let l := eval vm_compute in lines in change lines with l
    end.
    apply Forall_cons_2; [right; left; reflexivity|].
    apply Forall_cons_2; [left; reflexivity|].
    apply Forall_cons_2; [|apply Forall_nil_2].
    right; right. by apply extract_position_none.
Defined.

End MainClaims.

(** ** The position filter of the heat-map wrapper *)

Section FilterClaims.

Import Py Spec Heatmap.

Lemma rstrip_nonspace c s :
  isspace c = false → rstrip (String c s) = String c (rstrip s).
Proof. intros Hc. simpl. rewrite Hc. by destruct (rstrip s). Qed.

Lemma rstrip_idemp s : rstrip (rstrip s) = rstrip s.
Proof.
  induction s as [|c s IH]; [done|]. simpl.
  destruct (rstrip s) as [|x r] eqn:Hr.
  - destruct (isspace c) eqn:Hc; [done|]. simpl. by rewrite Hc.
  - simpl. simpl in IH. by rewrite IH.
Qed.

Lemma lstrip_head s :
  match lstrip s with
  | String c _ => isspace c = false
  | EmptyString => True
  end.
Proof.
  induction s as [|c s IH]; [done|]. simpl.
  destruct (isspace c) eqn:Hc; [done|]. exact Hc.
Qed.

Lemma lstrip_strip s : lstrip (strip s) = strip s.
Proof.
  unfold strip. pose proof (lstrip_head s) as Hhead.
  destruct (lstrip s) as [|c r]; [done|].
  rewrite rstrip_nonspace by done. simpl. by rewrite Hhead.
Qed.

Lemma strip_idemp s : strip (strip s) = strip s.
Proof.
  unfold strip at 1. rewrite lstrip_strip. unfold strip. apply rstrip_idemp.
Qed.

Lemma stripped_lines_nonblank text :
  Forall (λ pos, pos ≠ EmptyString ∧ strip pos = pos) (stripped_lines text).
Proof.
  unfold stripped_lines. apply Forall_forall. intros pos Hpos.
  apply list_elem_of_fmap in Hpos as (line & -> & Hline).
  apply list_elem_of_filter in Hline as [Hne _].
  split; [done | apply strip_idemp].
Qed.

Lemma single_line_cons c s :
  single_line (String c s) ↔ islinebreak c = false ∧ single_line s.
Proof. unfold single_line. by rewrite chars_cons, Forall_cons. Qed.

Lemma lstrip_single_line s : single_line s → single_line (lstrip s).
Proof.
  induction s as [|c s IH]; [done|]. intros Hs. simpl.
  destruct (isspace c); [|done]. apply IH.
  by apply single_line_cons in Hs as [_ Hs].
Qed.

Lemma rstrip_single_line s : single_line s → single_line (rstrip s).
Proof.
  induction s as [|c s IH]; [done|].
  intros [Hc Hs]%single_line_cons. specialize (IH Hs). simpl.
  destruct (rstrip s) as [|x r].
  - destruct (isspace c); [done|]. by apply single_line_cons.
  - by apply single_line_cons.
Qed.

Lemma splitlines_segments_single_line s :
  Forall single_line (splitlines_segments s).
Proof.
  remember (String.length s) as n eqn:Hn.
  revert s Hn. induction (lt_wf n) as [n _ IH]. intros s ->.
  destruct s as [|c s]; [by repeat constructor|].
  assert (Forall single_line (splitlines_segments s)) as Hs
    by (apply (IH (String.length s)); simpl; [lia | done]).
  simpl.
  match goal with
  | |- Forall _ (if _ then _ :: ?rest else _) =>
      assert (Forall single_line rest) as Hrest
  end.
  { case_bool_decide; [|done]. destruct s as [|c' s']; [done|].
    case_bool_decide; [|done].
    apply (IH (String.length s')); simpl; [lia | done]. }
  destruct (islinebreak c) eqn:Hc.
  - constructor; [constructor | done].
  - match type of Hrest with Forall _ ?rest => destruct rest as [|seg segs] end.
    + repeat constructor. done.
    + inversion Hrest; subst. constructor; [|done].
      by apply single_line_cons.
Qed.

Lemma drop_empty_tail_Forall (P : string → Prop) segments :
  Forall P segments → Forall P (drop_empty_tail segments).
Proof.
  induction 1 as [|seg segments Hseg Hall IH]; [done|]. simpl.
  destruct seg; [destruct segments|]; by constructor.
Qed.

Lemma drop_empty_tail_snoc lines :
  drop_empty_tail (lines ++ [EmptyString]) = lines.
Proof.
  induction lines as [|line lines IH]; [done|].
  assert (drop_empty_tail ((line :: lines) ++ [EmptyString])
          = line :: drop_empty_tail (lines ++ [EmptyString])) as ->.
  { destruct line; [|done]. by destruct lines. }
  by rewrite IH.
Qed.

Lemma stripped_lines_single_line text :
  Forall single_line (stripped_lines text).
Proof.
  unfold stripped_lines. apply Forall_forall. intros pos Hpos.
  apply list_elem_of_fmap in Hpos as (line & -> & Hline).
  apply list_elem_of_filter in Hline as [_ Hline].
  apply rstrip_single_line, lstrip_single_line.
  pose proof (drop_empty_tail_Forall _ _ (splitlines_segments_single_line text))
    as Hall.
  rewrite Forall_forall in Hall. by apply Hall.
Qed.

Lemma splitlines_segments_line entry rest :
  single_line entry →
  splitlines_segments (entry +:+ String "010" rest)
  = entry :: splitlines_segments rest.
Proof.
  induction entry as [|c entry IH].
  - intros _. reflexivity.
  - intros [Hc Hentry]%single_line_cons. rewrite append_cons. simpl.
    rewrite Hc. rewrite bool_decide_eq_false_2; [|by intros ->].
    by rewrite IH.
Qed.

Lemma splitlines_lines_text entries :
  Forall single_line entries → splitlines (lines_text entries) = entries.
Proof.
  intros Hall. unfold splitlines.
  assert (splitlines_segments (lines_text entries) = entries ++ [EmptyString])
    as ->; [|apply drop_empty_tail_snoc].
  induction Hall as [|entry entries Hentry Hall IH]; [done|].
  simpl lines_text. by rewrite splitlines_segments_line, IH.
Qed.

(** Reading back a list of stripped, non-blank, one-line entries. *)
Lemma stripped_lines_lines_text entries :
  Forall single_line entries →
  Forall (λ pos, pos ≠ EmptyString ∧ strip pos = pos) entries →
  stripped_lines (lines_text entries) = entries.
Proof.
  intros Hsingle Hstripped. unfold stripped_lines.
  rewrite splitlines_lines_text by done. clear Hsingle.
  induction Hstripped as [|pos entries [Hne Hpos] Hall IH]; [done|].
  rewrite filter_cons, decide_True by by rewrite Hpos.
  cbn [map]. by rewrite Hpos, IH.
Qed.

Context (is_file : string → string → bool).

Lemma foldl_classify data_dir st positions :
  foldl (classify is_file data_dir) st positions =
  {| available :=
       available st ++ filter (λ pos, is_file data_dir pos = true) positions;
     missing :=
       missing st ++ filter (λ pos, is_file data_dir pos = false) positions |}.
Proof.
  revert st. induction positions as [|pos positions IH]; intros st; simpl.
  - destruct st. simpl. by rewrite !app_nil_r.
  - rewrite IH. unfold classify. rewrite !filter_cons.
    destruct (is_file data_dir pos) eqn:Hfile; repeat case_decide;
      try congruence; simpl; by rewrite <- app_assoc.
Qed.

Lemma foldl_write_line written entries :
  foldl write_line written entries = written +:+ lines_text entries.
Proof.
  revert written. induction entries as [|pos entries IH]; intros written.
  - simpl. by rewrite append_empty_r.
  - simpl foldl. rewrite IH. unfold write_line. simpl lines_text.
    by rewrite !append_assoc.
Qed.


End FilterClaims.

(** ** Where the identifiers are unique *)

Section UniqueIdentifiers.

Import Py Spec Mutinfo.

Lemma append_inj_length (a a' b b' : string) :
  String.length a = String.length a' → a +:+ b = a' +:+ b' → a = a' ∧ b = b'.
Proof.
  revert a'. induction a as [|c a IH]; intros [|c' a'] Hlen Heq;
    simpl in Hlen; try done.
  rewrite !append_cons in Heq. injection Heq as <- Heq.
  injection Hlen as Hlen. destruct (IH a' Hlen Heq) as [-> ->]. done.
Qed.

Lemma length_append (a b : string) :
  String.length (a +:+ b) = String.length a + String.length b.
Proof.
  induction a as [|c a IH]; [done|]. rewrite append_cons. simpl. by rewrite IH.
Qed.

(** Every member of the set has a one-letter wild-type residue. *)
Lemma positions_wild_type t fh :
  t ∈ positions (read_loop fh) → uppercase_letter (wt_aa_of t).
Proof.
  intros (raw_line & _ & Hrec)%elem_of_positions.
  unfold record_of in Hrec. destruct (bool_decide _ || _); [done|].
  by apply extract_position_some in Hrec
    as (chain & wt & resnum & others & g1 & g2 & _ & Hwt & _ & ->).
Qed.

(** The integer of a member is a function of its residue-number text. *)
Lemma positions_int_determined t t' fh :
  t ∈ positions (read_loop fh) → t' ∈ positions (read_loop fh) →
  resnum_str_of t = resnum_str_of t' → resnum_int_of t = resnum_int_of t'.
Proof.
  intros (ds & suffix & Hstr & _ & Hds & Hsuffix & ->)%positions_numeric_prefix.
  intros (ds' & suffix' & Hstr' & _ & Hds' & Hsuffix' & ->)%positions_numeric_prefix.
  intros Heq. rewrite Hstr, Hstr' in Heq.
  assert (span_digits (ds +:+ suffix) = (ds, suffix)) as Hspan.
  { apply span_digits_spec. repeat split; [done|].
    destruct Hsuffix as [-> | (c & -> & Hc)]; [done|].
    by apply upper_not_digit, isupper_range. }
  assert (span_digits (ds' +:+ suffix') = (ds', suffix')) as Hspan'.
  { apply span_digits_spec. repeat split; [done|].
    destruct Hsuffix' as [-> | (c & -> & Hc)]; [done|].
    by apply upper_not_digit, isupper_range. }
  rewrite Heq in Hspan. congruence.
Qed.

(** When the accumulated chains all have the same length, as with the
    one-character chain identifiers of PDB files, distinct tuples have
    distinct identifiers and no output line is repeated. *)
Lemma unique_identifiers_equal_chain_length iter fh :
  set_iteration iter →
  (∀ t t', t ∈ positions (read_loop fh) → t' ∈ positions (read_loop fh) →
           String.length (chain_of t) = String.length (chain_of t')) →
  NoDup (generate_position_list iter fh).1.
Proof.
  intros Hiter Hlen. unfold generate_position_list. simpl.
  assert (∀ t, t ∈ sorted key_lt sort_key (iter (positions (read_loop fh)))
               → t ∈ positions (read_loop fh)) as Hmem.
  { intros t. rewrite sorted_Permutation, (Hiter _). apply elem_of_elements. }
  apply NoDup_fmap_2_strong.
  - intros t t' Ht%Hmem Ht'%Hmem Hid.
    pose proof (positions_wild_type _ _ Ht) as (c & Hwt & _).
    pose proof (positions_wild_type _ _ Ht') as (c' & Hwt' & _).
    unfold _position_identifier in Hid.
    apply append_inj_length in Hid as [Hw Hid]; [|by rewrite Hwt, Hwt'].
    apply append_inj_length in Hid as [Hc Hr]; [|by apply Hlen].
    pose proof (positions_int_determined _ _ _ Ht Ht' Hr) as Hn.
    destruct t as [[[wt chain] resnum] n], t' as [[[wt' chain'] resnum'] n'].
    unfold wt_aa_of, chain_of, resnum_str_of, resnum_int_of in *.
    simpl in *. by subst.
  - rewrite sorted_Permutation, (Hiter _). apply NoDup_elements.
Qed.

End UniqueIdentifiers.

(** ** Lines, fields and numbers *)

Section LineFacts.

Import Py Spec Mutinfo.

(** The first field of [token,<remaining fields>] is [token]. *)
Lemma first_field_line token remaining :
  ","%char ∉ chars token →
  first_field (token +:+ String "," remaining) = token.
Proof.
  unfold first_field. induction token as [|c token IH]; intros Htoken.
  - reflexivity.
  - rewrite chars_cons, not_elem_of_cons in Htoken.
    destruct Htoken as [Hc Htoken]. specialize (IH Htoken).
    rewrite append_cons. simpl.
    rewrite bool_decide_eq_false_2 by congruence.
    destruct (split_1 "," (token +:+ String "," remaining)); by subst.
Qed.

(** A line without a comma is its own first field. *)
Lemma first_field_whole line :
  ","%char ∉ chars line → first_field line = line.
Proof.
  unfold first_field. induction line as [|c line IH]; intros Hline.
  - reflexivity.
  - rewrite chars_cons, not_elem_of_cons in Hline.
    destruct Hline as [Hc Hline]. specialize (IH Hline). simpl.
    rewrite bool_decide_eq_false_2 by congruence.
    destruct (split_1 "," line); by subst.
Qed.

Lemma int_from_append acc ds ds' :
  int_from acc (ds +:+ ds') = int_from (int_from acc ds) ds'.
Proof.
  revert acc. induction ds as [|c ds IH]; intros acc; [done|].
  rewrite append_cons. simpl. apply IH.
Qed.

(** [int] reads positional decimal notation. *)
Lemma int_snoc ds c :
  int (ds +:+ String c EmptyString) = (10 * int ds + digit_value c)%Z.
Proof. unfold int. by rewrite int_from_append. Qed.

Lemma digit_value_range c :
  isdigit c = true → (0 ≤ digit_value c ≤ 9)%Z.
Proof. rewrite isdigit_range. unfold digit_value. lia. Qed.

Lemma int_from_nonneg acc ds :
  (0 ≤ acc)%Z → digits ds → (0 ≤ int_from acc ds)%Z.
Proof.
  revert acc. induction ds as [|c ds IH]; intros acc Hacc Hds; [done|].
  apply digits_cons in Hds as [Hc Hds]. apply digit_value_range in Hc.
  simpl. apply IH; [lia | done].
Qed.

Lemma int_nonneg ds : digits ds → (0 ≤ int ds)%Z.
Proof. by apply int_from_nonneg. Qed.

Example int_007 : int "007" = 7%Z.
Proof. reflexivity. Qed.

Example first_field_example :
  first_field "A.A.25.A,A-A25A,A25A,A25" = "A.A.25.A".
Proof. reflexivity. Qed.

(** The two lines of the module docstring give one identifier. *)
Example docstring_example :
  generate_position_list elements
    ["A.A.25.A,A-A25A,A25A,A25" +:+ String "010" EmptyString;
     "A.A.25.C,A-A25C,A25C,A25" +:+ String "010" EmptyString]
  = (["AA25"], []).
Proof. by vm_compute. Qed.

(** Blank lines and comments are passed over in silence; a wild-type field
    that is not a letter gets a warning. *)
Example skipped_lines_example :
  generate_position_list elements
    ["# mutinfo"; EmptyString; "   "; "A.1.25.A,A-125A,125A,125";
     "B.G.7.C,B-G7C,G7C,G7"]
  = (["GB7"], [Warn_skipping "A.1.25.A,A-125A,125A,125"]).
Proof. by vm_compute. Qed.

End LineFacts.

(** ** More on the reading loop and its output *)

Section ReadingLoop.

Import Py Spec Mutinfo.

(** Blank lines and comment lines leave no trace: neither a set entry nor
    a warning. *)
Theorem blank_and_comment_lines_ignored iter fh1 raw_line fh2 :
  strip raw_line = EmptyString ∨ startswith "#" (strip raw_line) = true →
  read_loop (fh1 ++ raw_line :: fh2) = read_loop (fh1 ++ fh2)
  ∧ generate_position_list iter (fh1 ++ raw_line :: fh2)
    = generate_position_list iter (fh1 ++ fh2).
Proof.
  intros Hskip.
  assert (loop_body loop_start raw_line = loop_start) as Hbody.
  { unfold loop_body.
    destruct Hskip as [-> | ->]; [done | by rewrite orb_true_r]. }
  assert (read_loop (fh1 ++ raw_line :: fh2) = read_loop (fh1 ++ fh2)) as Heq.
  { rewrite !read_loop_app, read_loop_cons, Hbody. simpl.
    by rewrite (left_id_L ∅ (∪)). }
  split; [done|]. unfold generate_position_list. by rewrite Heq.
Qed.

Lemma blank_and_comment_lines_ignored_witness :
  generate_position_list elements
    (["A.A.25.A,A-A25A,A25A,A25"] ++ "  # checked by hand" :: ["B.G.7.C"])
  = generate_position_list elements (["A.A.25.A,A-A25A,A25A,A25"] ++ ["B.G.7.C"]).
Proof.
  apply (blank_and_comment_lines_ignored elements). right. reflexivity.
Defined.

Lemma loop_body_printed raw_line :
  printed (loop_body loop_start raw_line)
  = if decide (turned_down raw_line)
    then [Warn_skipping (strip raw_line)] else [].
Proof.
  destruct (decide (turned_down raw_line)) as [[[Hblank Hcomment] Hparse] | Hnot].
  - unfold loop_body.
    by rewrite bool_decide_eq_false_2, Hcomment, Hparse by done.
  - unfold loop_body. case_bool_decide as Hblank; simpl; [done|].
    destruct (startswith "#" (strip raw_line)) eqn:Hcomment; [done|].
    destruct (_extract_position _) as [t|] eqn:Hparse; [done|].
    by destruct Hnot.
Qed.

(** The warnings are those of the candidate lines whose token the parser
    turns down, one for each such line (a repeated line warns again), in
    the order of the lines; each carries the line as stripped. *)
Theorem warnings_follow_lines fh :
  printed (read_loop fh)
  = (λ raw_line, Warn_skipping (strip raw_line)) <$> filter turned_down fh.
Proof.
  induction fh as [|raw_line fh IH]; [done|].
  rewrite read_loop_cons. simpl. rewrite IH, filter_cons, loop_body_printed.
  by destruct (decide (turned_down raw_line)).
Qed.

Lemma output_members iter fh id :
  set_iteration iter →
  id ∈ (generate_position_list iter fh).1 ↔
  ∃ t, t ∈ positions (read_loop fh) ∧ id = identifier_of t.
Proof.
  intros Hiter. unfold generate_position_list. simpl.
  change (map ?f ?l) with (f <$> l). rewrite list_elem_of_fmap.
  split.
  - intros (t & -> & Ht). exists t. split; [|done].
    rewrite sorted_Permutation, (Hiter _) in Ht. by apply elem_of_elements.
  - intros (t & Ht & ->). exists t. split; [done|].
    rewrite sorted_Permutation, (Hiter _). by apply elem_of_elements.
Qed.

(** An identifier is in the output exactly when some line read is a
    candidate with a valid token that parses to a tuple with this
    identifier. *)
Theorem identifier_in_output iter fh id :
  set_iteration iter →
  id ∈ (generate_position_list iter fh).1 ↔
  ∃ raw_line t,
    raw_line ∈ fh ∧ record_of raw_line = Some t ∧ id = identifier_of t.
Proof.
  intros Hiter. rewrite output_members by done. split.
  - intros (t & Ht & ->).
    apply elem_of_positions in Ht as (raw_line & Hin & Hrec).
    by exists raw_line, t.
  - intros (raw_line & t & Hin & Hrec & ->). exists t. split; [|done].
    apply elem_of_positions. by exists raw_line.
Qed.

Lemma identifier_in_output_witness :
  "GB7" ∈ (generate_position_list elements
             ["A.A.25.A,A-A25A,A25A,A25"; "B.G.7.C,B-G7C,G7C,G7"]).1.
Proof.
  apply (identifier_in_output elements); [by intros s|].
  exists "B.G.7.C,B-G7C,G7C,G7", ("G", "B", "7", 7%Z).
  split; [by_evaluation | by split].
Defined.

Lemma size_positions_le fh : size (positions (read_loop fh)) ≤ length fh.
Proof.
  induction fh as [|raw_line fh IH]; [done|].
  rewrite read_loop_cons. simpl.
  rewrite size_union_alt, loop_body_positions.
  assert (size (positions (read_loop fh)
                ∖ match record_of raw_line with
                  | Some t => {[ t ]}
                  | None => ∅
                  end)
          ≤ size (positions (read_loop fh))) as Hrest
    by apply subseteq_size, subseteq_difference_l, reflexivity.
  destruct (record_of raw_line).
  - rewrite size_singleton. lia.
  - rewrite size_empty. lia.
Qed.

(** The count that [main] reports is the number of distinct parsed tuples;
    it is at most the number of lines read. *)
Theorem output_length iter fh :
  set_iteration iter →
  length (generate_position_list iter fh).1 = size (positions (read_loop fh))
  ∧ length (generate_position_list iter fh).1 ≤ length fh.
Proof.
  intros Hiter.
  assert (length (generate_position_list iter fh).1
          = size (positions (read_loop fh))) as Hlen.
  { unfold generate_position_list. simpl.
    rewrite length_map, sorted_Permutation, (Hiter _). done. }
  split; [done|]. rewrite Hlen. apply size_positions_le.
Qed.

Lemma output_length_witness :
  length (generate_position_list (reverse ∘ elements)
            ["A.A.25.A,A-A25A,A25A,A25"; "A.A.25.C,A-A25C,A25C,A25";
             "B.G.7.C,B-G7C,G7C,G7"]).1
  ≤ 3.
Proof.
  apply (output_length (reverse ∘ elements)
    ["A.A.25.A,A-A25A,A25A,A25"; "A.A.25.C,A-A25C,A25C,A25";
     "B.G.7.C,B-G7C,G7C,G7"]).
  intros s. apply reverse_Permutation.
Defined.

End ReadingLoop.

(** ** More on tokens and identifiers *)

Section TokensAndIdentifiers.

Import Py Spec Mutinfo.

(** Repeating lines, like reordering them, does not show in the output:
    with pairwise distinct sort keys, two inputs with the same lines give
    the same identifier list. *)
Theorem output_depends_on_lines_read iter1 iter2 fh1 fh2 :
  set_iteration iter1 → set_iteration iter2 →
  (∀ raw_line, raw_line ∈ fh1 ↔ raw_line ∈ fh2) →
  distinct_sort_keys (positions (read_loop fh1)) →
  (generate_position_list iter1 fh1).1 = (generate_position_list iter2 fh2).1.
Proof.
  intros Hiter1 Hiter2 Hsame Hkeys.
  assert (positions (read_loop fh1) = positions (read_loop fh2)) as Hset.
  { apply set_eq. intros t. rewrite !elem_of_positions.
    by setoid_rewrite Hsame. }
  rewrite (generate_position_list_any_iteration iter1) by done.
  rewrite (generate_position_list_any_iteration iter2);
    [|done | by rewrite <- Hset].
  unfold generate_position_list. simpl. by rewrite Hset.
Qed.

Lemma output_depends_on_lines_read_witness :
  (generate_position_list elements
     ["B.G.7.C,B-G7C,G7C,G7"; "A.A.25.C,A-A25C,A25C,A25";
      "B.G.7.C,B-G7C,G7C,G7"]).1
  = (generate_position_list (reverse ∘ elements)
       ["A.A.25.C,A-A25C,A25C,A25"; "B.G.7.C,B-G7C,G7C,G7"]).1.
Proof.
  apply output_depends_on_lines_read.
  - by intros s.
  - intros s. apply reverse_Permutation.
  - intros raw_line. rewrite !elem_of_cons, !elem_of_nil. tauto.
  - apply distinct_sort_keys_NoDup. by_evaluation.
Defined.

(** Only the first comma-separated field of a line is parsed: what
    follows the first comma does not matter. *)
Theorem remaining_fields_ignored raw_line token remaining :
  candidate raw_line →
  strip raw_line = token +:+ String "," remaining →
  ","%char ∉ chars token →
  record_of raw_line = _extract_position token.
Proof.
  intros Hcand Hline Htoken.
  rewrite record_of_candidate by done.
  by rewrite Hline, first_field_line.
Qed.

Lemma remaining_fields_ignored_witness :
  record_of "A.A.25.A,anything, at all" = _extract_position "A.A.25.A".
Proof.
  apply (remaining_fields_ignored _ "A.A.25.A" "anything, at all").
  - split; [by vm_compute | reflexivity].
  - reflexivity.
  - by_evaluation.
Defined.

Lemma split_first_three token chain wt_aa resnum_str others :
  split "." token = chain :: wt_aa :: resnum_str :: others →
  split "." (chain +:+ "." +:+ wt_aa +:+ "." +:+ resnum_str)
  = [chain; wt_aa; resnum_str].
Proof.
  intros Hsplit.
  pose proof (split_parts_without "." token) as Hall.
  rewrite Hsplit in Hall.
  apply Forall_cons in Hall as [Hc Hall].
  apply Forall_cons in Hall as [Hw Hall].
  apply Forall_cons in Hall as [Hr _].
  change (split "." (join "." [chain; wt_aa; resnum_str])
          = [chain; wt_aa; resnum_str]).
  apply split_join; [done|]. by repeat constructor.
Qed.

(** What an accepted token yields: a chain without a dot, one uppercase
    letter, a residue number of the required form that starts with a
    digit, and a non-negative integer.  A negative residue number is
    therefore never accepted. *)
Theorem accepted_token_fields token t :
  _extract_position token = Some t →
  ("."%char ∉ chars (chain_of t))
  ∧ uppercase_letter (wt_aa_of t)
  ∧ residue_number (resnum_str_of t)
  ∧ (∃ c rest, resnum_str_of t = String c rest ∧ isdigit c = true)
  ∧ (0 ≤ resnum_int_of t)%Z.
Proof.
  intros Hparse. apply extract_position_some in Hparse
    as (chain & wt & resnum & others & g1 & g2 & Hsplit & Hwt & Hres & ->).
  pose proof (split_parts_without "." token) as Hall.
  rewrite Hsplit in Hall. apply Forall_cons in Hall as [Hchain _].
  apply fullmatch_resnum_spec in Hres as (-> & Hne & Hds & Hsuffix).
  split; [done|]. split; [done|]. split; [by exists g1, g2|]. split.
  - destruct g1 as [|c g1]; [done|]. exists c, (g1 +:+ g2).
    split; [done|]. by apply digits_cons in Hds as [Hc _].
  - by apply int_nonneg.
Qed.

Lemma accepted_token_fields_witness :
  (0 ≤ resnum_int_of ("A", "A", "25A", 25%Z))%Z.
Proof.
  apply (accepted_token_fields "A.A.25A.C" ("A", "A", "25A", 25%Z)).
  reflexivity.
Defined.

(** Parsing is a round trip on its own result: the token rebuilt from the
    chain, the wild-type residue and the residue number of an accepted
    token parses to the same tuple. *)
Theorem extract_position_round_trip token t :
  _extract_position token = Some t →
  _extract_position
    (chain_of t +:+ "." +:+ wt_aa_of t +:+ "." +:+ resnum_str_of t)
  = Some t.
Proof.
  intros Hparse. apply extract_position_some in Hparse
    as (chain & wt & resnum & others & g1 & g2 & Hsplit & Hwt & Hres & ->).
  apply extract_position_some.
  exists chain, wt, resnum, [], g1, g2.
  split; [by apply (split_first_three token _ _ _ others) | done].
Qed.

Lemma extract_position_round_trip_witness :
  _extract_position "B.G.107A" = Some ("G", "B", "107A", 107%Z).
Proof.
  exact (extract_position_round_trip "B.G.107A.C.trailing"
           ("G", "B", "107A", 107%Z) eq_refl).
Defined.

End TokensAndIdentifiers.

(** ** The written position list *)

Section WrittenList.

Import Py Spec Mutinfo.

Lemma rstrip_last s c :
  isspace c = false →
  rstrip (s +:+ String c EmptyString) = s +:+ String c EmptyString.
Proof.
  intros Hc. induction s as [|x s IH].
  - rewrite append_empty_l. simpl. by rewrite Hc.
  - rewrite append_cons. simpl. rewrite IH.
    destruct s; by rewrite ?append_empty_l, ?append_cons.
Qed.

Lemma upper_not_space c : isupper c = true → isspace c = false.
Proof.
  rewrite isupper_range. unfold isspace. intros Hc.
  repeat (apply orb_false_intro); try apply andb_false_iff;
    rewrite ?N.leb_gt, ?N.eqb_neq; lia.
Qed.

Lemma digit_not_space c : isdigit c = true → isspace c = false.
Proof.
  rewrite isdigit_range. unfold isspace. intros Hc.
  repeat (apply orb_false_intro); try apply andb_false_iff;
    rewrite ?N.leb_gt, ?N.eqb_neq; lia.
Qed.

Lemma upper_not_linebreak c : isupper c = true → islinebreak c = false.
Proof.
  rewrite isupper_range. unfold islinebreak. intros Hc.
  repeat (apply orb_false_intro); try apply andb_false_iff;
    rewrite ?N.leb_gt, ?N.eqb_neq; lia.
Qed.

Lemma digit_not_linebreak c : isdigit c = true → islinebreak c = false.
Proof.
  rewrite isdigit_range. unfold islinebreak. intros Hc.
  repeat (apply orb_false_intro); try apply andb_false_iff;
    rewrite ?N.leb_gt, ?N.eqb_neq; lia.
Qed.

Lemma single_line_append a b :
  single_line (a +:+ b) ↔ single_line a ∧ single_line b.
Proof. unfold single_line. by rewrite chars_append, Forall_app. Qed.

Lemma uppercase_letter_single_line s : uppercase_letter s → single_line s.
Proof.
  intros (c & -> & Hc). apply single_line_cons. split; [|constructor].
  by apply upper_not_linebreak, isupper_range.
Qed.

Lemma digits_single_line s : digits s → single_line s.
Proof.
  unfold digits, single_line. intros Hall.
  eapply Forall_impl; [exact Hall|]. intros c Hc.
  by apply digit_not_linebreak, isdigit_range.
Qed.

Lemma digits_last ds :
  ds ≠ EmptyString → digits ds →
  ∃ body c, ds = body +:+ String c EmptyString ∧ isspace c = false.
Proof.
  induction ds as [|x ds IH]; [done|]. intros _ Hds.
  apply digits_cons in Hds as [Hx Hds].
  destruct ds as [|y ds].
  - exists EmptyString, x. split; [done | by apply digit_not_space].
  - destruct (IH ltac:(done) Hds) as (body & c & Heq & Hc).
    exists (String x body), c. by rewrite Heq.
Qed.

(** A residue number ends in a digit or an uppercase letter. *)
Lemma residue_number_last s :
  residue_number s →
  ∃ body c, s = body +:+ String c EmptyString ∧ isspace c = false.
Proof.
  intros (ds & suffix & -> & Hne & Hds & [-> | (c & -> & Hc)]).
  - rewrite append_empty_r. by apply digits_last.
  - exists ds, c. split; [done|]. by apply upper_not_space, isupper_range.
Qed.

Lemma positions_residue_number t fh :
  t ∈ positions (read_loop fh) → residue_number (resnum_str_of t).
Proof.
  intros (ds & suffix & ? & ? & ? & ? & _)%positions_numeric_prefix.
  by exists ds, suffix.
Qed.

Lemma identifier_of_strip t :
  uppercase_letter (wt_aa_of t) → residue_number (resnum_str_of t) →
  (∃ c rest, identifier_of t = String c rest ∧ isupper c = true)
  ∧ strip (identifier_of t) = identifier_of t.
Proof.
  intros (c & Hwt & Hc%isupper_range) Hres.
  unfold identifier_of, _position_identifier. rewrite Hwt.
  split; [by exists c, (chain_of t +:+ resnum_str_of t)|].
  apply residue_number_last in Hres as (body & x & -> & Hx).
  unfold strip. rewrite append_cons. simpl lstrip.
  rewrite (upper_not_space c Hc).
  rewrite <- append_cons, <- !append_assoc. by apply rstrip_last.
Qed.

(** Every identifier of the output starts with an uppercase letter, has
    no white space at either end, and is not empty. *)
Theorem identifier_shape iter fh id :
  set_iteration iter →
  id ∈ (generate_position_list iter fh).1 →
  (∃ c rest, id = String c rest ∧ isupper c = true) ∧ strip id = id.
Proof.
  intros Hiter (t & Ht & ->)%output_members; [|done].
  apply identifier_of_strip.
  - by eapply positions_wild_type.
  - by eapply positions_residue_number.
Qed.

Lemma identifier_shape_witness :
  strip "AA25" = "AA25".
Proof.
  apply (identifier_shape elements ["A.A.25.A,A-A25A,A25A,A25"] "AA25").
  - by intros s.
  - by_evaluation.
Defined.

Lemma join_lines_text lines :
  lines ≠ [] →
  join (String "010" EmptyString) lines +:+ String "010" EmptyString
  = lines_text lines.
Proof.
  induction lines as [|line lines IH]; [done|]. intros _.
  destruct lines as [|line' lines].
  - reflexivity.
  - rewrite join_cons. simpl lines_text. simpl lines_text in IH.
    rewrite <- IH by done. by rewrite !append_assoc.
Qed.



End WrittenList.

(** ** From the mutinfo script to the wrapper *)

Section Pipeline.

Import Py Spec Mutinfo.

(** The file the mutinfo script writes is a position list the wrapper
    reads back entry for entry: its stripped non-blank lines are the
    identifiers, in output order.  Chains are taken to hold no line
    boundary (a vertical tab, a form feed or the like). *)
Theorem position_list_read_back iter args fs text :
  set_iteration iter →
  fs !! mutinfo args = Some text →
  (∀ t, t ∈ positions (read_loop (file_lines text)) →
        single_line (chain_of t)) →
  ∃ written,
    (main iter args fs).1.2 !! output args = Some written
    ∧ Heatmap.stripped_lines written
      = (generate_position_list iter (file_lines text)).1.
Proof.
  intros Hiter Hfile Hchains.
  remember (generate_position_list iter (file_lines text)).1 as ids eqn:Hids.
  exists (join (String "010" EmptyString) ids +:+ String "010" EmptyString).
  split.
  { unfold main. rewrite Hfile. rewrite Hids.
    unfold generate_position_list. simpl. apply lookup_insert_eq. }
  destruct (decide (ids = [])) as [-> | Hcons]; [reflexivity|].
  rewrite join_lines_text by done.
  apply stripped_lines_lines_text; apply Forall_forall; intros id Hid;
    rewrite Hids in Hid.
  - apply output_members in Hid as (t & Ht & ->); [|done].
    pose proof (positions_wild_type _ _ Ht) as Hwt.
    pose proof (positions_residue_number _ _ Ht)
      as (ds & suffix & Hres & _ & Hds & Hsuffix).
    unfold identifier_of, _position_identifier.
    rewrite !single_line_append. split; [|split].
    + by apply uppercase_letter_single_line.
    + by apply Hchains.
    + rewrite Hres. apply single_line_append.
      split; [by apply digits_single_line|].
      destruct Hsuffix as [-> | Hup]; [constructor|].
      by apply uppercase_letter_single_line.
  - apply output_members in Hid as (t & Ht & ->); [|done].
    destruct (identifier_of_strip t) as [(c & rest & Hid & _) Hstrip].
    + by eapply positions_wild_type.
    + by eapply positions_residue_number.
    + split; [by rewrite Hid | done].
Qed.

Lemma position_list_read_back_witness :
  ∃ written,
    (main elements {| mutinfo := "mutinfo.txt"; output := "position_list.txt" |}
       {[ "mutinfo.txt" := "B.G.7.C,B-G7C" +:+ String "010" "A.A.25.A" ]}).1.2
      !! "position_list.txt" = Some written
    ∧ Heatmap.stripped_lines written = ["AA25"; "GB7"].
Proof.
  destruct (position_list_read_back elements
    {| mutinfo := "mutinfo.txt"; output := "position_list.txt" |}
    {[ "mutinfo.txt" := "B.G.7.C,B-G7C" +:+ String "010" "A.A.25.A" ]}
    ("B.G.7.C,B-G7C" +:+ String "010" "A.A.25.A"))
    as (written & Hwritten & Hback).
  - by intros s.
  - by vm_compute.
  - intros t Ht.
    assert (t ∈ ({[ ("G", "B", "7", 7%Z); ("A", "A", "25", 25%Z) ]}
                 : gset Position)) as Ht2.
    { revert Ht. by vm_compute. }
    apply elem_of_union in Ht2 as [->%elem_of_singleton | ->%elem_of_singleton];
      by_evaluation.
  - exists written. split; [exact Hwritten|]. rewrite Hback. by vm_compute.
Defined.

End Pipeline.

(** ** More on the position filter *)

Section FilterReport.

Import Py Spec Heatmap.

Context (is_file : string → string → bool).

(** The report on standard error: when no entry lacks its energy file, the
    single line that says so; otherwise the count of the entries that lack
    it, then these entries one per bullet, in input order. *)
Theorem filter_positions_report text data_dir :
  (_filter_positions is_file text data_dir).2
  = match filter (λ pos, is_file data_dir pos = false) (stripped_lines text)
    with
    | [] => [All_present]
    | gone => Excluding (length gone) :: (Bullet <$> gone)
    end.
Proof.
  unfold _filter_positions. simpl. rewrite foldl_classify. simpl.
  by destruct (filter _ (stripped_lines text)).
Qed.

Lemma filter_filter_same {A} (P : A → Prop) `{!∀ x, Decision (P x)}
    (l : list A) :
  filter P (filter P l) = filter P l.
Proof.
  induction l as [|x l IH]; [done|]. rewrite filter_cons.
  destruct (decide (P x)); [|done]. by rewrite filter_cons_True, IH.
Qed.

Lemma filter_filter_none {A} (P Q : A → Prop)
    `{!∀ x, Decision (P x)} `{!∀ x, Decision (Q x)} (l : list A) :
  (∀ x, P x → ¬ Q x) → filter Q (filter P l) = [].
Proof.
  intros Hno. induction l as [|x l IH]; [done|]. rewrite filter_cons.
  destruct (decide (P x)); [|done].
  rewrite filter_cons_False by by apply Hno. done.
Qed.

(** Filtering is idempotent: run on the list it wrote, against the same
    directory, the filter removes nothing and writes the same list. *)
Theorem filter_positions_idempotent text data_dir :
  _filter_positions is_file
    (_filter_positions is_file text data_dir).1.1 data_dir
  = ((_filter_positions is_file text data_dir).1.1, 0, [All_present]).
Proof.
  assert ((_filter_positions is_file text data_dir).1.1
          = lines_text (filter (λ pos, is_file data_dir pos = true)
                               (stripped_lines text))) as Htext.
  { unfold _filter_positions. simpl. rewrite foldl_classify. simpl.
    by rewrite foldl_write_line. }
  assert (stripped_lines (_filter_positions is_file text data_dir).1.1
          = filter (λ pos, is_file data_dir pos = true) (stripped_lines text))
    as Hback.
  { rewrite Htext. apply stripped_lines_lines_text.
    - apply Forall_forall. intros pos [_ Hpos]%list_elem_of_filter.
      pose proof (stripped_lines_single_line text) as Hall.
      rewrite Forall_forall in Hall. by apply Hall.
    - apply Forall_forall. intros pos [_ Hpos]%list_elem_of_filter.
      pose proof (stripped_lines_nonblank text) as Hall.
      rewrite Forall_forall in Hall. by apply Hall. }
  rewrite Htext in Hback. rewrite Htext.
  unfold _filter_positions. rewrite Hback, foldl_classify. simpl.
  rewrite filter_filter_same, foldl_write_line.
  rewrite (filter_filter_none _ (λ pos, is_file data_dir pos = false)).
  - done.
  - intros pos Hyes Hno. congruence.
Qed.

End FilterReport.

(** ** What the filter writes *)

Section FilterWritten.

Import Py Spec Heatmap.

Context (is_file : string → string → bool).

Lemma filter_positions_written text data_dir :
  (_filter_positions is_file text data_dir).1.1
  = lines_text
      (filter (λ pos, is_file data_dir pos = true) (stripped_lines text)).
Proof.
  unfold _filter_positions. simpl. rewrite foldl_classify. simpl.
  by rewrite foldl_write_line.
Qed.

Lemma filter_positions_removed text data_dir :
  (_filter_positions is_file text data_dir).1.2
  = length
      (filter (λ pos, is_file data_dir pos = false) (stripped_lines text)).
Proof.
  unfold _filter_positions. simpl. by rewrite foldl_classify.
Qed.

Lemma filter_positions_read_back text data_dir :
  stripped_lines (_filter_positions is_file text data_dir).1.1
  = filter (λ pos, is_file data_dir pos = true) (stripped_lines text).
Proof.
  rewrite filter_positions_written. apply stripped_lines_lines_text.
  - apply Forall_forall. intros pos [_ Hpos]%list_elem_of_filter.
    pose proof (stripped_lines_single_line text) as Hall.
    rewrite Forall_forall in Hall. by apply Hall.
  - apply Forall_forall. intros pos [_ Hpos]%list_elem_of_filter.
    pose proof (stripped_lines_nonblank text) as Hall.
    rewrite Forall_forall in Hall. by apply Hall.
Qed.

End FilterWritten.

(** ** The entry point of the wrapper *)

Section WrapperMain.

Import Py Spec Heatmap.

Context (joinpath : string → string → string).
Context (subprocess_run : list string → file_system → bool * file_system).

(** The run of [main] once its four checks have passed. *)
Lemma main_checked args extra filtered_pos_path fs text :
  is_Some (files fs !! pdb args) →
  is_Some (files fs !! mutation_list args) →
  files fs !! position_list args = Some text →
  data_directory args ∈ dirs fs →
  Heatmap.main joinpath subprocess_run args extra filtered_pos_path fs
  = let filtered :=
      _filter_positions (energy_file_exists joinpath fs) text
                        (data_directory args) in
    let cmd := ddg_cmd args filtered_pos_path extra in
    let tool :=
      subprocess_run cmd
        {| files := <[ filtered_pos_path := filtered.1.1 ]> (files fs);
           dirs := dirs fs |} in
    if tool.1
    then (Returned, cleanup args filtered_pos_path tool.2,
          (Report <$> filtered.2) ++ [Running cmd] ++ [Completed]
          ++ (if (filtered.1.2 =? 0)%nat then []
              else [Filtered_out filtered.1.2]))
    else (Subprocess_raised, cleanup args filtered_pos_path tool.2,
          (Report <$> filtered.2) ++ [Running cmd]).
Proof.
  intros [? Hpdb] [? Hmut] Hpos Hdir. unfold Heatmap.main.
  rewrite Hpdb, Hmut, Hpos. rewrite bool_decide_eq_true_2 by done.
  cbn [negb].
  destruct (_filter_positions _ _ _) as [[tmp_text n_removed] report].
  cbn [fst snd].
  destruct (subprocess_run _ _) as [returned fs_tool]. cbn [fst snd].
  destruct returned; by rewrite <- ?app_assoc.
Qed.

(** A missing input file ends the run at once: [main] exits naming the
    first of the PDB file, the mutation list and the position list that is
    not a file, writes nothing, creates no file and does not start the
    external tool. *)
Theorem wrapper_missing_input args extra filtered_pos_path fs :
  files fs !! pdb args = None
  ∨ files fs !! mutation_list args = None
  ∨ files fs !! position_list args = None →
  ∃ path,
    Heatmap.main joinpath subprocess_run args extra filtered_pos_path fs = (Exit_file_not_found path, fs, [])
    ∧ files fs !! path = None
    ∧ (path = pdb args
       ∨ (is_Some (files fs !! pdb args) ∧ path = mutation_list args)
       ∨ (is_Some (files fs !! pdb args)
          ∧ is_Some (files fs !! mutation_list args)
          ∧ path = position_list args)).
Proof.
  intros Hmissing. unfold Heatmap.main.
  destruct (files fs !! pdb args) as [?|] eqn:Hpdb;
    [|exists (pdb args); by auto].
  destruct (files fs !! mutation_list args) as [?|] eqn:Hmut;
    [|exists (mutation_list args); split; [done|]; split; [done|];
      right; left; by eauto].
  destruct (files fs !! position_list args) as [?|] eqn:Hpos;
    [|exists (position_list args); split; [done|]; split; [done|];
      right; right; by eauto].
  by destruct Hmissing as [? | [? | ?]].
Qed.

(** A missing data directory ends the run as well: nothing is written,
    no file is created and the external tool is not started. *)
Theorem wrapper_missing_data_directory args extra filtered_pos_path fs :
  is_Some (files fs !! pdb args) →
  is_Some (files fs !! mutation_list args) →
  is_Some (files fs !! position_list args) →
  data_directory args ∉ dirs fs →
  Heatmap.main joinpath subprocess_run args extra filtered_pos_path fs
  = (Exit_data_directory_not_found (data_directory args), fs, []).
Proof.
  intros [? Hpdb] [? Hmut] [? Hpos] Hdir. unfold Heatmap.main.
  rewrite Hpdb, Hmut, Hpos. by rewrite bool_decide_eq_false_2.
Qed.

(** Once the four checks have passed, the external tool is started once,
    with the command [ddg2heatmap -p pdb -d data_dir -l mutation_list
    -q filtered_pos_path -o output] followed by the arguments the wrapper
    did not recognise, on a file system where [filtered_pos_path] lists
    exactly the entries whose energy file exists, in their input order.
    The run returns when the tool does and raises when it does, and in
    both cases leaves the file system of the tool after the [finally]
    clause. *)
Theorem wrapper_runs_tool_on_filtered_list
    args extra filtered_pos_path fs text :
  is_Some (files fs !! pdb args) →
  is_Some (files fs !! mutation_list args) →
  files fs !! position_list args = Some text →
  data_directory args ∈ dirs fs →
  ∃ tmp_text report,
    let cmd :=
      ["ddg2heatmap"; "-p"; pdb args; "-d"; data_directory args;
       "-l"; mutation_list args; "-q"; filtered_pos_path;
       "-o"; output args] ++ extra in
    let tool :=
      subprocess_run cmd
        {| files := <[ filtered_pos_path := tmp_text ]> (files fs);
           dirs := dirs fs |} in
    let result :=
      Heatmap.main joinpath subprocess_run args extra filtered_pos_path fs in
    stripped_lines tmp_text
    = filter (λ pos, is_Some (files fs !! joinpath (data_directory args) pos))
             (stripped_lines text)
    ∧ result.1.1 = (if tool.1 then Returned else Subprocess_raised)
    ∧ result.1.2 = cleanup args filtered_pos_path tool.2
    ∧ (∃ after, result.2 = (Report <$> report) ++ Running cmd :: after
                ∧ Forall (λ line, ∀ c, line ≠ Running c) after).
Proof.
  intros Hpdb Hmut Hpos Hdir.
  exists (_filter_positions (energy_file_exists joinpath fs) text
            (data_directory args)).1.1,
         (_filter_positions (energy_file_exists joinpath fs) text
            (data_directory args)).2.
  cbv zeta. rewrite (main_checked _ _ _ _ text) by done. cbv zeta.
  fold (ddg_cmd args filtered_pos_path extra).
  split.
  { rewrite filter_positions_read_back. apply list_filter_iff.
    intros pos. unfold energy_file_exists.
    by rewrite bool_decide_eq_true. }
  destruct (subprocess_run _ _) as [[] fs_tool]; cbn [fst snd];
    (split; [done|]; split; [done|]).
  - eexists. split; [reflexivity|].
    constructor; [done|]. by destruct (_ =? _)%nat; repeat constructor.
  - exists []. by split.
Qed.

(** Unless [--keep-temp] is given, the temporary file is gone when [main]
    ends, however it ends: after a normal return, after a failure of the
    external tool, and after an early exit, before which it was never
    created. *)
Theorem wrapper_removes_temporary_file args extra filtered_pos_path fs :
  keep_temp args = false →
  files fs !! filtered_pos_path = None →
  files (Heatmap.main joinpath subprocess_run args extra filtered_pos_path fs).1.2
    !! filtered_pos_path = None.
Proof.
  intros Hkeep Hfresh. unfold Heatmap.main.
  destruct (files fs !! pdb args); [|done].
  destruct (files fs !! mutation_list args); [|done].
  destruct (files fs !! position_list args); [|done].
  destruct (negb _); [done|].
  destruct (_filter_positions _ _ _) as [[tmp_text n_removed] report].
  destruct (subprocess_run _ _) as [returned fs_tool].
  unfold cleanup. rewrite Hkeep.
  destruct returned; simpl; apply lookup_delete_eq.
Qed.

(** With [--keep-temp], and an external tool that leaves the temporary
    file alone, the filtered list is still there when [main] ends, and
    reads back as the entries whose energy file exists. *)
Theorem wrapper_keeps_temporary_file
    args extra filtered_pos_path fs text :
  keep_temp args = true →
  is_Some (files fs !! pdb args) →
  is_Some (files fs !! mutation_list args) →
  files fs !! position_list args = Some text →
  data_directory args ∈ dirs fs →
  (∀ cmd fs0, files (subprocess_run cmd fs0).2 !! filtered_pos_path
              = files fs0 !! filtered_pos_path) →
  ∃ tmp_text,
    files (Heatmap.main joinpath subprocess_run args extra filtered_pos_path fs).1.2
      !! filtered_pos_path = Some tmp_text
    ∧ stripped_lines tmp_text
      = filter (λ pos, is_Some (files fs !! joinpath (data_directory args) pos))
               (stripped_lines text).
Proof.
  intros Hkeep Hpdb Hmut Hpos Hdir Htool.
  exists (_filter_positions (energy_file_exists joinpath fs) text
            (data_directory args)).1.1.
  split.
  - rewrite (main_checked _ _ _ _ text) by done. cbv zeta.
    assert (∀ (b : bool) (x y : outcome * file_system * list log),
              (if b then x else y).1.2 = if b then x.1.2 else y.1.2) as Hif
      by by intros [].
    rewrite Hif. cbn [fst snd]. unfold cleanup. rewrite Hkeep.
    assert (∀ (b : bool) (x : file_system), (if b then x else x) = x) as Hsame
      by by intros [].
    rewrite Hsame, Htool. simpl. apply lookup_insert_eq.
  - rewrite filter_positions_read_back. apply list_filter_iff.
    intros pos. unfold energy_file_exists. by rewrite bool_decide_eq_true.
Qed.

(** The closing messages: [ddg2heatmap completed] is written exactly when
    the run returns, and [Filtered out n] exactly when it returns and [n],
    the number of entries without an energy file, is not zero. *)
Theorem wrapper_closing_messages
    args extra filtered_pos_path fs text n :
  is_Some (files fs !! pdb args) →
  is_Some (files fs !! mutation_list args) →
  files fs !! position_list args = Some text →
  data_directory args ∈ dirs fs →
  let result :=
    Heatmap.main joinpath subprocess_run args extra filtered_pos_path fs in
  let gone :=
    filter (λ pos, files fs !! joinpath (data_directory args) pos = None)
           (stripped_lines text) in
  (Completed ∈ result.2 ↔ result.1.1 = Returned)
  ∧ (Filtered_out n ∈ result.2 ↔
     result.1.1 = Returned ∧ n = length gone ∧ n ≠ 0).
Proof.
  intros Hpdb Hmut Hpos Hdir. cbv zeta.
  rewrite (main_checked _ _ _ _ text) by done. cbv zeta.
  rewrite filter_positions_removed.
  assert (filter (λ pos, energy_file_exists joinpath fs (data_directory args) pos
                         = false) (stripped_lines text)
          = filter (λ pos, files fs !! joinpath (data_directory args) pos = None)
                   (stripped_lines text)) as ->.
  { apply list_filter_iff. intros pos. unfold energy_file_exists.
    rewrite bool_decide_eq_false, <- eq_None_not_Some. done. }
  set (gone := filter _ (stripped_lines text)).
  assert (∀ line : log, (∀ i, line ≠ Report i) →
            line ∉ Report <$> (_filter_positions
              (energy_file_exists joinpath fs) text (data_directory args)).2)
    as Hreport.
  { intros line Hline (i & -> & _)%list_elem_of_fmap. by apply (Hline i). }
  destruct (subprocess_run _ _) as [[] fs_tool]; cbn [fst snd].
  - rewrite !elem_of_app, !elem_of_cons, !elem_of_nil. split.
    + split; [done|]. intros _. right; right; left. by left.
    + destruct (Nat.eqb_spec (length gone) 0) as [Hzero | Hpos0].
      * rewrite elem_of_nil. split.
        -- intros [Hin | [[?|[]] | [[?|[]] | []]]]; try done.
           by apply Hreport in Hin.
        -- intros (_ & -> & Hn). done.
      * rewrite elem_of_cons, elem_of_nil. split.
        -- intros [Hin | [[?|[]] | [[?|[]] | [Heq | []]]]]; try done.
           ++ by apply Hreport in Hin.
           ++ injection Heq as ->. done.
        -- intros (_ & -> & _). right; right; right. by left.
  - rewrite !elem_of_app, !elem_of_cons, !elem_of_nil. split.
    + split; [|done]. intros [Hin | [? | []]]; [|done].
      by apply Hreport in Hin.
    + split; [|by intros [? _]]. intros [Hin | [? | []]]; [|done].
      by apply Hreport in Hin.
Qed.

End WrapperMain.

(** ** The wrapper on a small installation *)

Section WrapperExamples.

Import Py Spec Heatmap.

Lemma wrapper_missing_input_witness :
  ∃ path,
    Heatmap.main Sample.joinpath Sample.tool_ok Sample.args [] "/tmp/f.txt"
      Sample.fs_no_mutation_list
    = (Exit_file_not_found path, Sample.fs_no_mutation_list, [])
    ∧ path = "residues.txt".
Proof.
  destruct (wrapper_missing_input Sample.joinpath Sample.tool_ok
    Sample.args [] "/tmp/f.txt" Sample.fs_no_mutation_list)
    as (path & Hmain & _ & Hpath).
  - right; left. by vm_compute.
  - exists path. split; [exact Hmain|].
    destruct Hpath as [-> | [[_ ->] | (_ & Hmut & _)]].
    + by vm_compute in Hmain.
    + reflexivity.
    + exfalso. revert Hmut. by_evaluation.
Defined.

Lemma wrapper_missing_data_directory_witness :
  Heatmap.main Sample.joinpath Sample.tool_ok Sample.args [] "/tmp/f.txt"
    Sample.fs_no_data_directory
  = (Exit_data_directory_not_found "energies", Sample.fs_no_data_directory, []).
Proof.
  apply (wrapper_missing_data_directory Sample.joinpath Sample.tool_ok
    Sample.args [] "/tmp/f.txt" Sample.fs_no_data_directory); by_evaluation.
Defined.

Lemma wrapper_runs_tool_on_filtered_list_witness :
  (Heatmap.main Sample.joinpath Sample.tool_fails Sample.args ["-t"]
     "/tmp/f.txt" Sample.fs).1.1 = Subprocess_raised.
Proof.
  destruct (wrapper_runs_tool_on_filtered_list Sample.joinpath
    Sample.tool_fails Sample.args ["-t"] "/tmp/f.txt" Sample.fs
    Sample.position_text) as (tmp_text & report & _ & Houtcome & _).
  - by_evaluation.
  - by_evaluation.
  - by vm_compute.
  - by_evaluation.
  - exact Houtcome.
Defined.

Lemma wrapper_removes_temporary_file_witness :
  files (Heatmap.main Sample.joinpath Sample.tool_ok Sample.args []
           "/tmp/f.txt" Sample.fs).1.2 !! "/tmp/f.txt" = None.
Proof.
  apply (wrapper_removes_temporary_file Sample.joinpath Sample.tool_ok
    Sample.args [] "/tmp/f.txt" Sample.fs); by vm_compute.
Defined.

Lemma wrapper_keeps_temporary_file_witness :
  ∃ tmp_text,
    files (Heatmap.main Sample.joinpath Sample.tool_ok Sample.args_keep_temp
             [] "/tmp/f.txt" Sample.fs).1.2 !! "/tmp/f.txt" = Some tmp_text
    ∧ stripped_lines tmp_text = ["AA25"].
Proof.
  destruct (wrapper_keeps_temporary_file Sample.joinpath Sample.tool_ok
    Sample.args_keep_temp [] "/tmp/f.txt" Sample.fs Sample.position_text)
    as (tmp_text & Hfile & Hback).
  - reflexivity.
  - by_evaluation.
  - by_evaluation.
  - by vm_compute.
  - by_evaluation.
  - intros cmd fs0. simpl. by rewrite lookup_insert_ne.
  - exists tmp_text. split; [exact Hfile|]. rewrite Hback. by vm_compute.
Defined.

Lemma wrapper_closing_messages_witness :
  Filtered_out 1
  ∈ (Heatmap.main Sample.joinpath Sample.tool_ok Sample.args []
       "/tmp/f.txt" Sample.fs).2.
Proof.
  apply (wrapper_closing_messages Sample.joinpath Sample.tool_ok
    Sample.args [] "/tmp/f.txt" Sample.fs Sample.position_text 1).
  - by_evaluation.
  - by_evaluation.
  - by vm_compute.
  - by_evaluation.
  - split; [by vm_compute|]. split; [by vm_compute | done].
Defined.

End WrapperExamples.

(** ** Residue spans *)

Section SpanParsing.

Import Py Spec Spans.

Lemma parse_loop_from parsed span_list :
  foldl (λ residues span,
           match residues with
           | Some parsed =>
               match parse_span span with
               | Some triple => Some (parsed ++ [triple])
               | None => None
               end
           | None => None
           end)
        (Some parsed) span_list
  = (parsed ++.) <$> mapM parse_span span_list.
Proof.
  revert parsed. induction span_list as [|span span_list IH]; intros parsed.
  - simpl. by rewrite app_nil_r.
  - simpl. destruct (parse_span span) as [triple|]; simpl.
    + rewrite IH. destruct (mapM parse_span span_list); simpl; [|done].
      by rewrite <- app_assoc.
    + clear IH. by induction span_list.
Qed.

Lemma parse_residue_spans_mapM span_list :
  parse_residue_spans span_list = mapM parse_span span_list.
Proof.
  unfold parse_residue_spans. rewrite parse_loop_from.
  by destruct (mapM parse_span span_list).
Qed.

(** The spans are parsed all or none: the call returns exactly when every
    span parses, and then gives one triple per span, in the order of the
    spans; a single malformed span makes the whole call raise. *)
Theorem parse_residue_spans_all_or_none span_list :
  (∀ parsed, parse_residue_spans span_list = Some parsed ↔
             Forall2 (λ span triple, parse_span span = Some triple)
                     span_list parsed)
  ∧ (parse_residue_spans span_list = None ↔
     ∃ span, span ∈ span_list ∧ parse_span span = None).
Proof.
  rewrite parse_residue_spans_mapM. split.
  - intros parsed. apply mapM_Some.
  - rewrite mapM_None, Exists_exists. reflexivity.
Qed.

Lemma digit_not_int_space c : isdigit c = true → int_space c = false.
Proof.
  rewrite isdigit_range. unfold int_space. intros Hc.
  repeat (apply orb_false_intro); try apply andb_false_iff;
    rewrite ?N.leb_gt, ?N.eqb_neq; lia.
Qed.

Lemma int_lstrip_digits ds : digits ds → int_lstrip ds = ds.
Proof.
  destruct ds as [|c ds]; [done|]. intros [Hc _]%digits_cons. simpl.
  by rewrite digit_not_int_space.
Qed.

Lemma int_rstrip_digits ds : digits ds → int_rstrip ds = ds.
Proof.
  induction ds as [|c ds IH]; [done|]. intros [Hc Hds]%digits_cons.
  simpl. rewrite IH by done. rewrite digit_not_int_space by done.
  by destruct ds.
Qed.

Lemma literal_digits_digits after_digit ds :
  digits ds → ds ≠ EmptyString ∨ after_digit = true →
  literal_digits after_digit ds = Some ds.
Proof.
  revert after_digit. induction ds as [|c ds IH]; intros after_digit Hds Hne.
  - destruct Hne as [? | ->]; done.
  - apply digits_cons in Hds as [Hc Hds]. simpl. rewrite Hc.
    rewrite IH by auto. done.
Qed.

Lemma literal_digits_sound after_digit s ds :
  literal_digits after_digit s = Some ds → digits ds.
Proof.
  revert after_digit ds. induction s as [|c s IH]; intros after_digit ds; simpl.
  - destruct after_digit; [|done]. intros [= <-]. apply digits_nil.
  - destruct (isdigit c) eqn:Hc.
    + destruct (literal_digits true s) as [ds'|] eqn:Hrest; [|done].
      intros [= <-]. apply digits_cons. split; [done|]. by eapply IH.
    + destruct (bool_decide _ && after_digit); [|done]. apply IH.
Qed.

(** A plain run of digits within the limit is read as its value. *)
Lemma int_digits ds :
  ds ≠ EmptyString → digits ds → String.length ds ≤ max_str_digits →
  int ds = Some (Py.int ds).
Proof.
  intros Hne Hds Hlen. unfold int.
  rewrite int_lstrip_digits, int_rstrip_digits by done.
  destruct ds as [|c ds]; [done|].
  pose proof Hds as [Hc _]%digits_cons.
  rewrite !bool_decide_eq_false_2.
  - rewrite literal_digits_digits by auto.
    by rewrite (proj2 (Nat.ltb_ge _ _) Hlen).
  - intros ->. by vm_compute in Hc.
  - intros ->. by vm_compute in Hc.
Qed.

Lemma int_lstrip_head s c rest :
  int_lstrip s = String c rest → c ∈ chars s.
Proof.
  induction s as [|x s IH]; [done|]. rewrite chars_cons.
  cbn [int_lstrip]. destruct (int_space x).
  - intros Hs. right. by apply IH.
  - intros [= -> _]. by left.
Qed.

Lemma int_rstrip_head s c rest :
  int_rstrip s = String c rest → c ∈ chars s.
Proof.
  destruct s as [|x s]; [done|]. rewrite chars_cons.
  cbn [int_rstrip]. destruct (int_rstrip s).
  - destruct (int_space x); [done|]. intros [= -> _]. by left.
  - intros [= -> _]. by left.
Qed.

(** Without a minus sign in the text, [int] gives no negative number. *)
Lemma int_nonnegative s z :
  int s = Some z → "-"%char ∉ chars s → (0 ≤ z)%Z.
Proof.
  unfold int. intros Hint Hminus.
  destruct (int_rstrip (int_lstrip s)) as [|c rest] eqn:Hbody; [done|].
  assert (c ≠ "-"%char) as Hc.
  { intros ->. apply Hminus.
    apply int_rstrip_head in Hbody.
    destruct (int_lstrip s) as [|x r] eqn:Hl; [by apply elem_of_nil in Hbody|].
    clear -Hbody Hl. revert x r Hl Hbody.
    induction s as [|y s IH]; intros x r Hl Hbody; [done|].
    rewrite chars_cons. cbn [int_lstrip] in Hl. destruct (int_space y).
    - right. by eapply IH.
    - injection Hl as -> ->. by rewrite chars_cons in Hbody. }
  rewrite bool_decide_eq_false_2 in Hint by done.
  assert (∀ magnitude,
    match literal_digits false magnitude with
    | Some ds =>
        if (max_str_digits <? String.length ds)%nat then None
        else Some (Py.int ds)
    | None => None
    end = Some z → (0 ≤ z)%Z) as Hpos.
  { intros magnitude Hm.
    destruct (literal_digits false magnitude) as [ds|] eqn:Hlit; [|done].
    destruct (_ <? _)%nat; [done|]. injection Hm as <-.
    eapply int_nonneg, literal_digits_sound, Hlit. }
  destruct (bool_decide (c = "+"%char)); by apply Hpos in Hint.
Qed.

(** A span written [chain:first-last], with a chain free of colons and two
    runs of digits within the limit of the interpreter, parses to the
    chain and the two values. *)
Theorem parse_span_well_formed chain first last :
  ":"%char ∉ chars chain →
  first ≠ EmptyString → digits first → String.length first ≤ max_str_digits →
  last ≠ EmptyString → digits last → String.length last ≤ max_str_digits →
  parse_residue_spans [chain +:+ ":" +:+ first +:+ "-" +:+ last]
  = Some [(chain, Py.int first, Py.int last)].
Proof.
  intros Hchain Hf Hfd Hfl Hl Hld Hll.
  assert (∀ c ds, digits ds → isdigit c = false → c ∉ chars ds) as Hnot.
  { intros c ds Hds Hc Hin. unfold digits in Hds.
    rewrite Forall_forall in Hds. specialize (Hds _ Hin).
    apply isdigit_range in Hds. congruence. }
  rewrite parse_residue_spans_mapM. simpl. unfold parse_span.
  assert (split ":" (chain +:+ ":" +:+ first +:+ "-" +:+ last)
          = [chain; first +:+ "-" +:+ last]) as ->.
  { change (chain +:+ ":" +:+ ?r) with (chain +:+ String ":" r).
    rewrite split_append by done. f_equal. apply split_without.
    rewrite !chars_append, !not_elem_of_app. split; [by apply Hnot|].
    split; [|by apply Hnot]. by_evaluation. }
  assert (split "-" (first +:+ "-" +:+ last) = [first; last]) as ->.
  { change (first +:+ "-" +:+ last) with (first +:+ String "-" last).
    rewrite split_append by by apply Hnot. f_equal.
    apply split_without. by apply Hnot. }
  by rewrite !int_digits.
Qed.

Lemma parse_span_well_formed_witness :
  parse_residue_spans ["A:30-37"] = Some [("A", 30%Z, 37%Z)].
Proof.
  apply (parse_span_well_formed "A" "30" "37");
    try discriminate; try by_evaluation; vm_compute; lia.
Defined.

(** Both bounds of every parsed span are non-negative: the hyphen is the
    separator, so a bound cannot carry a minus sign, and residues with
    negative numbers cannot be asked for. *)
Theorem parsed_bounds_nonnegative span_list parsed :
  parse_residue_spans span_list = Some parsed →
  Forall (λ triple, (0 ≤ triple.1.2)%Z ∧ (0 ≤ triple.2)%Z) parsed.
Proof.
  rewrite parse_residue_spans_mapM. intros Hall%mapM_Some.
  induction Hall as [|span [[chain start] end_] spans parsed Hspan _ IH];
    constructor; [|done].
  clear IH. unfold parse_span in Hspan.
  destruct (split ":" span) as [|c [|rng [|??]]]; try done.
  pose proof (split_parts_without "-" rng) as Hparts.
  destruct (split "-" rng) as [|first [|last [|??]]]; try done.
  apply Forall_cons in Hparts as [Hfirst Hparts].
  apply Forall_cons in Hparts as [Hlast _].
  destruct (int first) as [a|] eqn:Ha; [|done].
  destruct (int last) as [b|] eqn:Hb; [|done].
  injection Hspan as <- <- <-. simpl.
  split; by eapply int_nonnegative.
Qed.

Lemma parsed_bounds_nonnegative_witness :
  Forall (λ triple : string * Z * Z, (0 ≤ triple.1.2)%Z ∧ (0 ≤ triple.2)%Z)
         [("A", 30%Z, 37%Z); ("B", 5%Z, 1%Z)].
Proof.
  apply (parsed_bounds_nonnegative ["A:30-37"; "B: 5 - +1"]). reflexivity.
Defined.

End SpanParsing.

(** ** Positions from a structure *)

Section SpanEntries.

Import Py Spec Spans.

Context (capitalize : string → string).
Context (protein_letters_3to1 : gmap string string).

Lemma residue_body_from chain_id start end_ st res :
  residue_body capitalize protein_letters_3to1 chain_id start end_ st res
  = {| pos_entries :=
         pos_entries st
         ++ pos_entries (residue_body capitalize protein_letters_3to1
                           chain_id start end_ (LoopState [] []) res);
       printed :=
         printed st
         ++ printed (residue_body capitalize protein_letters_3to1
                       chain_id start end_ (LoopState [] []) res) |}.
Proof.
  destruct st as [entries out]. unfold residue_body; simpl.
  destruct (negb _); simpl; [by rewrite !app_nil_r|].
  destruct (_ && _); simpl; [|by rewrite !app_nil_r].
  destruct (protein_letters_3to1 !! _); simpl; by rewrite !app_nil_r.
Qed.

Lemma residue_loop_from chain_id start end_ st residues :
  foldl (residue_body capitalize protein_letters_3to1 chain_id start end_)
        st residues
  = {| pos_entries :=
         pos_entries st
         ++ pos_entries (foldl (residue_body capitalize protein_letters_3to1
                                  chain_id start end_)
                               (LoopState [] []) residues);
       printed :=
         printed st
         ++ printed (foldl (residue_body capitalize protein_letters_3to1
                              chain_id start end_)
                           (LoopState [] []) residues) |}.
Proof.
  induction residues as [|res residues IH] using rev_ind.
  - destruct st. simpl. by rewrite !app_nil_r.
  - rewrite !foldl_app. simpl. rewrite IH.
    rewrite (residue_body_from _ _ _ (foldl _ _ _)).
    rewrite (residue_body_from _ _ _ (LoopState _ _)). simpl.
    by rewrite !app_assoc.
Qed.

Lemma span_body_from chains st span :
  span_body capitalize protein_letters_3to1 chains st span
  = {| pos_entries :=
         pos_entries st
         ++ pos_entries (span_body capitalize protein_letters_3to1 chains
                           (LoopState [] []) span);
       printed :=
         printed st
         ++ printed (span_body capitalize protein_letters_3to1 chains
                       (LoopState [] []) span) |}.
Proof.
  destruct span as [[chain_id start] end_]. unfold span_body.
  destruct (chains !! chain_id) as [residues|].
  - apply residue_loop_from.
  - destruct st. simpl. by rewrite app_nil_r.
Qed.

Lemma span_loop_from chains st spans :
  foldl (span_body capitalize protein_letters_3to1 chains) st spans
  = {| pos_entries :=
         pos_entries st
         ++ pos_entries (collect capitalize protein_letters_3to1 chains spans);
       printed :=
         printed st
         ++ printed (collect capitalize protein_letters_3to1 chains spans) |}.
Proof.
  unfold collect. induction spans as [|span spans IH] using rev_ind.
  - destruct st. simpl. by rewrite !app_nil_r.
  - rewrite !foldl_app. simpl. rewrite IH.
    rewrite (span_body_from _ (foldl _ _ _)).
    rewrite (span_body_from _ (LoopState _ _)). simpl.
    by rewrite !app_assoc.
Qed.

Lemma collect_app chains spans1 spans2 :
  collect capitalize protein_letters_3to1 chains (spans1 ++ spans2)
  = {| pos_entries :=
         pos_entries (collect capitalize protein_letters_3to1 chains spans1)
         ++ pos_entries (collect capitalize protein_letters_3to1 chains spans2);
       printed :=
         printed (collect capitalize protein_letters_3to1 chains spans1)
         ++ printed (collect capitalize protein_letters_3to1 chains spans2) |}.
Proof.
  unfold collect at 1. rewrite foldl_app.
  fold (collect capitalize protein_letters_3to1 chains spans1).
  apply span_loop_from.
Qed.

Lemma residue_loop_entries chain_id start end_ residues :
  pos_entries (foldl (residue_body capitalize protein_letters_3to1
                        chain_id start end_) (LoopState [] []) residues)
  = omap (entry_of capitalize protein_letters_3to1 chain_id start end_)
         residues.
Proof.
  induction residues as [|res residues IH] using rev_ind; [done|].
  rewrite foldl_app, omap_app. simpl. rewrite residue_body_from. simpl.
  rewrite IH. f_equal. unfold residue_body, entry_of. simpl.
  destruct (decide (hetfield res = " ")) as [Hhet | Hhet].
  - rewrite (bool_decide_eq_true_2 (hetfield res = " ")) by done. simpl.
    destruct (decide (start ≤ resseq res ≤ end_)%Z) as [Hin | Hout].
    + rewrite (proj2 (Z.leb_le _ _) (proj1 Hin)),
        (proj2 (Z.leb_le _ _) (proj2 Hin)). simpl.
      rewrite bool_decide_eq_true_2 by done.
      by destruct (protein_letters_3to1 !! _).
    + rewrite bool_decide_eq_false_2 by tauto.
      destruct (start <=? resseq res)%Z eqn:H1;
        destruct (resseq res <=? end_)%Z eqn:H2; simpl; try done.
      apply Z.leb_le in H1. apply Z.leb_le in H2. by destruct Hout.
  - rewrite (bool_decide_eq_false_2 (hetfield res = " ")) by done. simpl.
    rewrite bool_decide_eq_false_2 by tauto. done.
Qed.

Lemma collect_entries chains spans :
  pos_entries (collect capitalize protein_letters_3to1 chains spans)
  = spans ≫= span_entries capitalize protein_letters_3to1 chains.
Proof.
  induction spans as [|span spans IH]; [done|].
  change (span :: spans) with ([span] ++ spans) at 1.
  rewrite (collect_app chains [span] spans). simpl. rewrite IH.
  f_equal. unfold collect. simpl.
  destruct span as [[chain_id start] end_]. unfold span_body, span_entries.
  simpl. destruct (chains !! chain_id); [|done].
  apply residue_loop_entries.
Qed.

Lemma collect_cons chains span spans :
  collect capitalize protein_letters_3to1 chains (span :: spans)
  = {| pos_entries :=
         pos_entries (collect capitalize protein_letters_3to1 chains [span])
         ++ pos_entries (collect capitalize protein_letters_3to1 chains spans);
       printed :=
         printed (collect capitalize protein_letters_3to1 chains [span])
         ++ printed (collect capitalize protein_letters_3to1 chains spans) |}.
Proof. apply (collect_app chains [span] spans). Qed.

Lemma residue_loop_empty_range chain_id start end_ residues :
  (end_ < start)%Z →
  foldl (residue_body capitalize protein_letters_3to1 chain_id start end_)
        (LoopState [] []) residues
  = LoopState [] [].
Proof.
  intros Hempty. induction residues as [|res residues IH] using rev_ind;
    [done|].
  rewrite foldl_app, IH. simpl. unfold residue_body. simpl.
  destruct (negb _); [done|].
  destruct (start <=? resseq res)%Z eqn:H1;
    destruct (resseq res <=? end_)%Z eqn:H2; simpl; try done.
  apply Z.leb_le in H1. apply Z.leb_le in H2. lia.
Qed.

(** The entries are collected span by span in the order of the spans, and
    within a span in the order of the residues of its chain; the file
    written holds each of them followed by a newline, and the count
    printed last is their number.  Without a model 0 the call raises. *)
Theorem generate_position_list_writes_entries
    structure spans output_file fs :
  match structure !! 0%Z with
  | None =>
      generate_position_list capitalize protein_letters_3to1
        structure spans output_file fs = None
  | Some chains =>
      let entries :=
        spans ≫= span_entries capitalize protein_letters_3to1 chains in
      ∃ warnings,
        generate_position_list capitalize protein_letters_3to1
          structure spans output_file fs
        = Some (<[ output_file := lines_text entries ]> fs,
                warnings ++ [Generated output_file (length entries)])
  end.
Proof.
  unfold generate_position_list.
  destruct (structure !! 0%Z) as [chains|]; [|done]. cbv zeta.
  rewrite collect_entries, foldl_write_line. by eexists.
Qed.

(** An entry is listed exactly for a residue of the chain of a span that
    is no hetero residue or water, whose number lies within the bounds of
    the span, both included, and whose capitalised name is in the table:
    it is the letter of the table, the chain identifier and the residue
    number.  The insertion code plays no part. *)
Theorem entry_listed_iff chains spans entry :
  entry ∈ pos_entries (collect capitalize protein_letters_3to1 chains spans)
  ↔ ∃ chain_id start end_ residues res one_letter,
      (chain_id, start, end_) ∈ spans
      ∧ chains !! chain_id = Some residues
      ∧ res ∈ residues
      ∧ hetfield res = " "
      ∧ (start ≤ resseq res ≤ end_)%Z
      ∧ protein_letters_3to1 !! capitalize (resname res) = Some one_letter
      ∧ entry = one_letter +:+ chain_id +:+ pretty (resseq res).
Proof.
  rewrite collect_entries, list_elem_of_bind. split.
  - intros ([[chain_id start] end_] & Hentry & Hspan).
    unfold span_entries in Hentry. simpl in Hentry.
    destruct (chains !! chain_id) as [residues|] eqn:Hchain;
      [|by apply elem_of_nil in Hentry].
    apply list_elem_of_omap in Hentry as (res & Hres & Hentry).
    unfold entry_of in Hentry. case_bool_decide as Hsel; [|done].
    destruct Hsel as [Hhet Hrange].
    destruct (protein_letters_3to1 !! _) as [one_letter|] eqn:Hletter;
      [|done].
    injection Hentry as <-.
    by exists chain_id, start, end_, residues, res, one_letter.
  - intros (chain_id & start & end_ & residues & res & one_letter
            & Hspan & Hchain & Hres & Hhet & Hrange & Hletter & ->).
    exists (chain_id, start, end_). split; [|done].
    unfold span_entries. simpl. rewrite Hchain.
    apply list_elem_of_omap. exists res. split; [done|].
    unfold entry_of. rewrite bool_decide_eq_true_2 by done.
    by rewrite Hletter.
Qed.

(** Spans are handled one after the other and independently: the entries
    and the messages for a list of spans are those of its first part
    followed by those of the rest.  Nothing is deduplicated, so a residue
    that two spans cover is listed twice. *)
Theorem spans_handled_independently chains spans1 spans2 :
  pos_entries (collect capitalize protein_letters_3to1 chains
                 (spans1 ++ spans2))
  = pos_entries (collect capitalize protein_letters_3to1 chains spans1)
    ++ pos_entries (collect capitalize protein_letters_3to1 chains spans2)
  ∧ printed (collect capitalize protein_letters_3to1 chains
               (spans1 ++ spans2))
    = printed (collect capitalize protein_letters_3to1 chains spans1)
      ++ printed (collect capitalize protein_letters_3to1 chains spans2).
Proof. by rewrite collect_app. Qed.

(** A span on a chain the model does not have is passed over with one
    warning that names the chain; the other spans are handled as without
    it. *)
Theorem unknown_chain_skipped chains spans1 chain_id start end_ spans2 :
  chains !! chain_id = None →
  pos_entries (collect capitalize protein_letters_3to1 chains
                 (spans1 ++ (chain_id, start, end_) :: spans2))
  = pos_entries (collect capitalize protein_letters_3to1 chains
                   (spans1 ++ spans2))
  ∧ printed (collect capitalize protein_letters_3to1 chains
               (spans1 ++ (chain_id, start, end_) :: spans2))
    = printed (collect capitalize protein_letters_3to1 chains spans1)
      ++ Chain_not_found chain_id
         :: printed (collect capitalize protein_letters_3to1 chains spans2).
Proof.
  intros Hchain.
  assert (collect capitalize protein_letters_3to1 chains
            [(chain_id, start, end_)]
          = LoopState [] [Chain_not_found chain_id]) as Hone.
  { unfold collect. simpl. by rewrite Hchain. }
  rewrite !collect_app, collect_cons, Hone. by simpl.
Qed.

(** A span whose last bound is below its first selects nothing, and
    silently: on an existing chain it adds no entry and no message. *)
Theorem empty_range_selects_nothing
    chains spans1 chain_id start end_ residues spans2 :
  (end_ < start)%Z →
  chains !! chain_id = Some residues →
  collect capitalize protein_letters_3to1 chains
    (spans1 ++ (chain_id, start, end_) :: spans2)
  = collect capitalize protein_letters_3to1 chains (spans1 ++ spans2).
Proof.
  intros Hempty Hchain.
  assert (collect capitalize protein_letters_3to1 chains
            [(chain_id, start, end_)]
          = LoopState [] []) as Hone.
  { unfold collect. simpl. rewrite Hchain.
    by apply residue_loop_empty_range. }
  rewrite !collect_app, collect_cons, Hone. by simpl.
Qed.

End SpanEntries.

(** ** The spans script on a small structure *)

Section SpanExamples.

Import Py Spec Spans.

Example collect_example :
  collect Sample.capitalize Sample.protein_letters_3to1 Sample.chains
    [("A", 25%Z, 27%Z); ("B", 1%Z, 9%Z); ("A", 26%Z, 26%Z)]
  = {| pos_entries := ["AA25"; "GA26"; "GA26"];
       printed := [Skipping_unknown "Xyz" "A" 27; Chain_not_found "B"] |}.
Proof. by vm_compute. Qed.

Lemma unknown_chain_skipped_witness :
  pos_entries (collect Sample.capitalize Sample.protein_letters_3to1
                 Sample.chains ([("A", 25%Z, 26%Z)] ++ ("B", 1%Z, 9%Z) :: []))
  = pos_entries (collect Sample.capitalize Sample.protein_letters_3to1
                   Sample.chains ([("A", 25%Z, 26%Z)] ++ [])).
Proof.
  apply (unknown_chain_skipped Sample.capitalize Sample.protein_letters_3to1
           Sample.chains [("A", 25%Z, 26%Z)] "B" 1 9 []).
  by vm_compute.
Defined.

Lemma empty_range_selects_nothing_witness :
  collect Sample.capitalize Sample.protein_letters_3to1 Sample.chains
    ([] ++ ("A", 27%Z, 25%Z) :: [("A", 25%Z, 25%Z)])
  = collect Sample.capitalize Sample.protein_letters_3to1 Sample.chains
      ([] ++ [("A", 25%Z, 25%Z)]).
Proof.
  eapply (empty_range_selects_nothing Sample.capitalize
            Sample.protein_letters_3to1 Sample.chains [] "A" 27 25).
  - lia.
  - by vm_compute.
Defined.

End SpanExamples.

(** ** Where the identifiers are unique, on an example *)

Section UniqueIdentifiersExample.

Import Py Spec Mutinfo.

Lemma unique_identifiers_equal_chain_length_witness :
  NoDup (generate_position_list elements
           ["A.A.25.C,A-A25C,A25C,A25"; "B.A.25.C,B-A25C,A25C,A25";
            "A.G.125.C,A-G125C,G125C,G125"]).1.
Proof.
  apply (unique_identifiers_equal_chain_length elements); [by intros s|].
  intros t t' Ht Ht'.
  assert (∀ u, u ∈ positions (read_loop
            ["A.A.25.C,A-A25C,A25C,A25"; "B.A.25.C,B-A25C,A25C,A25";
             "A.G.125.C,A-G125C,G125C,G125"]) →
          String.length (chain_of u) = 1) as Hone.
  { intros u Hu.
    assert (u ∈ ({[ ("A", "A", "25", 25%Z); ("A", "B", "25", 25%Z);
                    ("G", "A", "125", 125%Z) ]} : gset Position)) as Hu2.
    { revert Hu. by vm_compute. }
    rewrite !elem_of_union, !elem_of_singleton in Hu2.
    by destruct Hu2 as [[-> | ->] | ->]. }
  by rewrite (Hone t Ht), (Hone t' Ht').
Defined.

End UniqueIdentifiersExample.
